(** * geo: the generic geocoding framework (geocoder.go)

    A shallow embedding of [geocoder.go]: the [Location] value, the two
    capability interfaces, the fetch-and-decode step [response] (with the
    parts of [net/url], [strings] and [encoding/json] it relies on), the
    timed race of [Geocode] / [ReverseGeocode] as a timed step relation, and
    the classifier [anyError]. *)

From Stdlib Require Import ZArith List String Ascii Bool Floats Lia.
Import ListNotations.
Open Scope Z_scope.

(** ** Go values *)

(** [float64] is IEEE binary64; Go's [==] on floats is IEEE equality
    ([-0 == 0], [NaN != NaN]), i.e. [PrimFloat.eqb]. *)
Definition float64 := float.

(** [type Location struct { Lat, Lng float64 }] *)
Record Location := mkLocation { Lat : float64; Lng : float64 }.

(** The zero value [Location{}]. *)
Definition Location0 : Location := mkLocation 0%float 0%float.

(** Go's [==] on [Location]: field-wise float equality. *)
Definition Location_eqb (a b : Location) : bool :=
  (Lat a =? Lat b)%float && (Lng a =? Lng b)%float.

(** Go's [error] is an open interface; the values that can occur in this
    package: its two sentinels, and the errors of the library calls made by
    [response] (request construction, transport, body read, JSON syntax). *)
Inductive goerror :=
| TimeoutError            (* errors.New("TIMEOUT") *)
| NoResultError           (* errors.New("NO_RESULT") *)
| ErrNewRequest (msg : string)
| ErrTransport (msg : string)
| ErrReadBody (msg : string)
| ErrSyntax (offset : nat).

(** [time.Duration] in nanoseconds. *)
Definition Duration := Z.
Definition Second : Duration := 1000000000.

(** [var timeoutInSeconds = time.Second * 8] *)
Definition timeoutInSeconds : Duration := Second * 8.

(** ** anyError *)

(** The dynamic value passed as [interface{}]. *)
Inductive any :=
| AnyLocation (l : Location)
| AnyString (s : string)
| AnyOther.

(** [func anyError(v interface{}) (err error)] *)
Definition anyError (v : any) : option goerror :=
  match v with
  | AnyLocation l =>
      if (Lat l =? 0)%float && (Lng l =? 0)%float then Some NoResultError else None
  | AnyString s => if String.eqb s "" then Some NoResultError else None
  | AnyOther => None
  end.

(** ** Bytes

    A Go [string] / [[]byte] is a sequence of bytes: [list ascii] (each
    [ascii] is one 8-bit byte). *)
Definition bytes := list ascii.

Definition byte_val (c : ascii) : Z := Z.of_nat (nat_of_ascii c).

(** ** url.QueryEscape *)

(** [shouldEscape(c, encodeQueryComponent)]: letters, digits and
    [- _ . ~] are kept; every other byte (reserved ones included) is
    escaped. *)
Definition shouldEscape (c : ascii) : bool :=
  let n := byte_val c in
  if ((65 <=? n) && (n <=? 90)) || ((97 <=? n) && (n <=? 122))
     || ((48 <=? n) && (n <=? 57)) then false
  else if Ascii.eqb c "-" || Ascii.eqb c "_" || Ascii.eqb c "." || Ascii.eqb c "~"
  then false
  else true.

(** ["0123456789ABCDEF"[v]] for [0 <= v < 16]. *)
Definition hexdigit (v : Z) : ascii :=
  if v <? 10 then ascii_of_nat (Z.to_nat (48 + v))
  else ascii_of_nat (Z.to_nat (55 + v)).

(** [escape(s, encodeQueryComponent)], byte per byte: a space becomes
    ['+'], another escaped byte [c] becomes ['%'] followed by the two upper
    case hex digits of [c]. *)
Definition escape_byte (c : ascii) : list ascii :=
  if shouldEscape c then
    if Ascii.eqb c " " then ["+"%char]
    else ["%"%char; hexdigit (byte_val c / 16); hexdigit (byte_val c mod 16)]
  else [c].

Fixpoint escape_bytes (s : list ascii) : list ascii :=
  match s with
  | [] => []
  | c :: r => escape_byte c ++ escape_bytes r
  end.

(** [func QueryEscape(s string) string] *)
Definition QueryEscape (s : string) : string :=
  string_of_list_ascii (escape_bytes (list_ascii_of_string s)).

(** ** strings.Trim(s, " []")

    [Trim] = [TrimRight(TrimLeft(s))]. The cutset is ASCII and a UTF-8
    multi-byte sequence never contains an ASCII byte, so trimming runes of the
    cutset is trimming bytes of it. *)
Definition in_cutset (c : ascii) : bool :=
  Ascii.eqb c " " || Ascii.eqb c "[" || Ascii.eqb c "]".

Fixpoint trim_left (s : bytes) : bytes :=
  match s with
  | [] => []
  | c :: r => if in_cutset c then trim_left r else s
  end.

Definition trim_right (s : bytes) : bytes := rev (trim_left (rev s)).

Definition Trim (s : bytes) : bytes := trim_right (trim_left s).

(** ** encoding/json: checkValid

    [json.Unmarshal] first runs [checkValid] (the byte scanner of
    [encoding/json/scanner.go]) over the whole input and returns a
    [SyntaxError] without touching its target when it fails. The scanner is
    a state machine: a step function, a stack of parse states (top first)
    and the [endTop] flag. A step returning [None] is [scanError]; the
    scanner's [err] is sticky, so the first error decides [checkValid]. *)
Module Json.

Inductive parseState := parseObjectKey | parseObjectValue | parseArrayValue.

Inductive stepfn :=
| stateBeginValueOrEmpty | stateBeginValue | stateBeginStringOrEmpty
| stateBeginString | stateEndValue | stateEndTop
| stateInString | stateInStringEsc | stateInStringEscU | stateInStringEscU1
| stateInStringEscU12 | stateInStringEscU123
| stateNeg | state1 | state0 | stateDot | stateDot0 | stateE | stateESign | stateE0
| stateT | stateTr | stateTru | stateF | stateFa | stateFal | stateFals
| stateN | stateNu | stateNul.

Record scanner := mkScanner {
  step : stepfn;
  parseStack : list parseState;
  endTop : bool }.

Definition set_step (s : scanner) (f : stepfn) : scanner :=
  mkScanner f (parseStack s) (endTop s).

Definition isSpace (c : ascii) : bool :=
  Ascii.eqb c " " || Ascii.eqb c "009" || Ascii.eqb c "013" || Ascii.eqb c "010".

Definition isDigit (c : ascii) : bool :=
  (48 <=? byte_val c) && (byte_val c <=? 57).

Definition isDigit19 (c : ascii) : bool :=
  (49 <=? byte_val c) && (byte_val c <=? 57).

Definition isHex (c : ascii) : bool :=
  isDigit c || ((97 <=? byte_val c) && (byte_val c <=? 102))
  || ((65 <=? byte_val c) && (byte_val c <=? 70)).

(** [s.step = f; return scanContinue] *)
Definition cont (s : scanner) (f : stepfn) : option scanner := Some (set_step s f).

(** [pushParseState]: push [p] and continue with [f]. *)
Definition push (s : scanner) (p : parseState) (f : stepfn) : option scanner :=
  Some (mkScanner f (p :: parseStack s) (endTop s)).

(** [popParseState] *)
Definition pop (s : scanner) : option scanner :=
  match parseStack s with
  | [] => None
  | _ :: r =>
      match r with
      | [] => Some (mkScanner stateEndTop [] true)
      | _ => Some (mkScanner stateEndValue r (endTop s))
      end
  end.

Definition fn_stateEndTop (s : scanner) (c : ascii) : option scanner :=
  if isSpace c then Some s else None.

Definition fn_stateEndValue (s : scanner) (c : ascii) : option scanner :=
  match parseStack s with
  | [] => fn_stateEndTop (mkScanner stateEndTop [] true) c
  | ps :: r =>
      if isSpace c then cont s stateEndValue else
      match ps with
      | parseObjectKey =>
          if Ascii.eqb c ":" then Some (mkScanner stateBeginValue (parseObjectValue :: r) (endTop s))
          else None
      | parseObjectValue =>
          if Ascii.eqb c "," then Some (mkScanner stateBeginString (parseObjectKey :: r) (endTop s))
          else if Ascii.eqb c "}" then pop s
          else None
      | parseArrayValue =>
          if Ascii.eqb c "," then cont s stateBeginValue
          else if Ascii.eqb c "]" then pop s
          else None
      end
  end.

Definition fn_stateBeginValue (s : scanner) (c : ascii) : option scanner :=
  if isSpace c then Some s
  else if Ascii.eqb c "{" then push s parseObjectKey stateBeginStringOrEmpty
  else if Ascii.eqb c "[" then push s parseArrayValue stateBeginValueOrEmpty
  else if Ascii.eqb c "034" then cont s stateInString
  else if Ascii.eqb c "-" then cont s stateNeg
  else if Ascii.eqb c "0" then cont s state0
  else if Ascii.eqb c "t" then cont s stateT
  else if Ascii.eqb c "f" then cont s stateF
  else if Ascii.eqb c "n" then cont s stateN
  else if isDigit19 c then cont s state1
  else None.

Definition fn_stateBeginValueOrEmpty (s : scanner) (c : ascii) : option scanner :=
  if isSpace c then Some s
  else if Ascii.eqb c "]" then fn_stateEndValue s c
  else fn_stateBeginValue s c.

Definition fn_stateBeginString (s : scanner) (c : ascii) : option scanner :=
  if isSpace c then Some s
  else if Ascii.eqb c "034" then cont s stateInString
  else None.

Definition fn_stateBeginStringOrEmpty (s : scanner) (c : ascii) : option scanner :=
  if isSpace c then Some s
  else if Ascii.eqb c "}" then
    match parseStack s with
    | _ :: r => fn_stateEndValue (mkScanner (step s) (parseObjectValue :: r) (endTop s)) c
    | [] => None
    end
  else fn_stateBeginString s c.

Definition fn_stateInString (s : scanner) (c : ascii) : option scanner :=
  if Ascii.eqb c "034" then cont s stateEndValue
  else if Ascii.eqb c "\" then cont s stateInStringEsc
  else if byte_val c <? 32 then None
  else Some s.

Definition fn_stateInStringEsc (s : scanner) (c : ascii) : option scanner :=
  if Ascii.eqb c "b" || Ascii.eqb c "f" || Ascii.eqb c "n" || Ascii.eqb c "r"
     || Ascii.eqb c "t" || Ascii.eqb c "\" || Ascii.eqb c "/" || Ascii.eqb c "034"
  then cont s stateInString
  else if Ascii.eqb c "u" then cont s stateInStringEscU
  else None.

Definition fn_hex (next : stepfn) (s : scanner) (c : ascii) : option scanner :=
  if isHex c then cont s next else None.

Definition fn_stateNeg (s : scanner) (c : ascii) : option scanner :=
  if Ascii.eqb c "0" then cont s state0
  else if isDigit19 c then cont s state1
  else None.

Definition fn_state0 (s : scanner) (c : ascii) : option scanner :=
  if Ascii.eqb c "." then cont s stateDot
  else if Ascii.eqb c "e" || Ascii.eqb c "E" then cont s stateE
  else fn_stateEndValue s c.

Definition fn_state1 (s : scanner) (c : ascii) : option scanner :=
  if isDigit c then cont s state1 else fn_state0 s c.

Definition fn_stateDot (s : scanner) (c : ascii) : option scanner :=
  if isDigit c then cont s stateDot0 else None.

Definition fn_stateDot0 (s : scanner) (c : ascii) : option scanner :=
  if isDigit c then Some s
  else if Ascii.eqb c "e" || Ascii.eqb c "E" then cont s stateE
  else fn_stateEndValue s c.

Definition fn_stateESign (s : scanner) (c : ascii) : option scanner :=
  if isDigit c then cont s stateE0 else None.

Definition fn_stateE (s : scanner) (c : ascii) : option scanner :=
  if Ascii.eqb c "+" || Ascii.eqb c "-" then cont s stateESign
  else fn_stateESign s c.

Definition fn_stateE0 (s : scanner) (c : ascii) : option scanner :=
  if isDigit c then Some s else fn_stateEndValue s c.

(** The letters of [true], [false], [null]. *)
Definition fn_lit (expect : ascii) (next : stepfn) (s : scanner) (c : ascii) : option scanner :=
  if Ascii.eqb c expect then cont s next else None.

(** [s.step(s, c)] *)
Definition scan_step (s : scanner) (c : ascii) : option scanner :=
  match step s with
  | stateBeginValueOrEmpty => fn_stateBeginValueOrEmpty s c
  | stateBeginValue => fn_stateBeginValue s c
  | stateBeginStringOrEmpty => fn_stateBeginStringOrEmpty s c
  | stateBeginString => fn_stateBeginString s c
  | stateEndValue => fn_stateEndValue s c
  | stateEndTop => fn_stateEndTop s c
  | stateInString => fn_stateInString s c
  | stateInStringEsc => fn_stateInStringEsc s c
  | stateInStringEscU => fn_hex stateInStringEscU1 s c
  | stateInStringEscU1 => fn_hex stateInStringEscU12 s c
  | stateInStringEscU12 => fn_hex stateInStringEscU123 s c
  | stateInStringEscU123 => fn_hex stateInString s c
  | stateNeg => fn_stateNeg s c
  | state1 => fn_state1 s c
  | state0 => fn_state0 s c
  | stateDot => fn_stateDot s c
  | stateDot0 => fn_stateDot0 s c
  | stateE => fn_stateE s c
  | stateESign => fn_stateESign s c
  | stateE0 => fn_stateE0 s c
  | stateT => fn_lit "r" stateTr s c
  | stateTr => fn_lit "u" stateTru s c
  | stateTru => fn_lit "e" stateEndValue s c
  | stateF => fn_lit "a" stateFa s c
  | stateFa => fn_lit "l" stateFal s c
  | stateFal => fn_lit "s" stateFals s c
  | stateFals => fn_lit "e" stateEndValue s c
  | stateN => fn_lit "u" stateNu s c
  | stateNu => fn_lit "l" stateNul s c
  | stateNul => fn_lit "l" stateEndValue s c
  end.

(** [scan.reset()] *)
Definition reset : scanner := mkScanner stateBeginValue [] false.

Fixpoint scan_run (s : scanner) (data : bytes) : option scanner :=
  match data with
  | [] => Some s
  | c :: r => match scan_step s c with
              | Some s' => scan_run s' r
              | None => None
              end
  end.

(** [scan.eof()]: done if [endTop]; otherwise feed one space. *)
Definition eof (s : scanner) : bool :=
  if endTop s then true
  else match scan_step s " " with
       | Some s' => endTop s'
       | None => false
       end.

(** [checkValid(data, scan) == nil] *)
Definition checkValid (data : bytes) : bool :=
  match scan_run reset data with
  | Some s => eof s
  | None => false
  end.

(** Bracket depth of a byte string, outside string literals: the measure
    the scanner's parse stack follows. *)
Inductive mode := MOut | MIn | MEsc.

Definition mode_of (f : stepfn) : mode :=
  match f with
  | stateInString | stateInStringEscU | stateInStringEscU1
  | stateInStringEscU12 | stateInStringEscU123 => MIn
  | stateInStringEsc => MEsc
  | _ => MOut
  end.

Definition dstep (dm : Z * mode) (c : ascii) : Z * mode :=
  let (d, m) := dm in
  match m with
  | MOut =>
      if Ascii.eqb c "[" || Ascii.eqb c "{" then (d + 1, MOut)
      else if Ascii.eqb c "]" || Ascii.eqb c "}" then (d - 1, MOut)
      else if Ascii.eqb c "034" then (d, MIn)
      else (d, MOut)
  | MIn =>
      if Ascii.eqb c "034" then (d, MOut)
      else if Ascii.eqb c "\" then (d, MEsc)
      else (d, MIn)
  | MEsc => (d, MIn)
  end.

Fixpoint drun (dm : Z * mode) (s : bytes) : Z * mode :=
  match s with
  | [] => dm
  | c :: r => drun (dstep dm c) r
  end.

Definition depth (s : scanner) : Z := Z.of_nat (List.length (parseStack s)).

(** After [endTop] the scanner sits in [stateEndTop] with an empty stack. *)
Definition top_inv (s : scanner) : Prop :=
  endTop s = true -> step s = stateEndTop /\ parseStack s = [].

End Json.

(** ** The capability interfaces and the facade *)

(** Parser objects live in a heap: an interface value of type
    [ResponseParser] holds a pointer ([ref]) to one. *)
Definition ref := nat.

Record Heap (S : Type) := mkHeap { objs : ref -> S; next : ref }.
Arguments mkHeap {S}. Arguments objs {S}. Arguments next {S}.

Definition heap_set {S} (h : Heap S) (r : ref) (v : S) : Heap S :=
  mkHeap (fun r' => if Nat.eqb r r' then v else objs h r') (next h).

(** [new(T)] / [&T{...}]: a fresh object. *)
Definition heap_alloc {S} (h : Heap S) (v : S) : Heap S * ref :=
  (mkHeap (fun r' => if Nat.eqb (next h) r' then v else objs h r') (Datatypes.S (next h)), next h).

(** [type EndpointBuilder interface] *)
Record EndpointBuilder := mkEndpointBuilder {
  GeocodeUrl : string -> string;
  ReverseGeocodeUrl : Location -> string }.

(** [type ResponseParser interface] for one concrete provider type whose
    objects have state [S]: its three methods, and what [json.Unmarshal]
    does to an object of that type from a syntactically valid document
    (the reflection-driven decode: the new state and the decode error, if
    any). *)
Record ResponseParser (S : Type) := mkResponseParser {
  rp_Location : S -> Location;
  rp_Address : S -> string;
  rp_ResponseObject : ref -> Heap S -> Heap S * ref;
  rp_decode : bytes -> S -> S * option goerror }.
Arguments mkResponseParser {S}. Arguments rp_Location {S}. Arguments rp_Address {S}.
Arguments rp_ResponseObject {S}. Arguments rp_decode {S}.

(** [type Geocoder struct { EndpointBuilder; ResponseParser }] *)
Record Geocoder := mkGeocoder {
  g_EndpointBuilder : EndpointBuilder;
  g_ResponseParser : ref }.

(** ** The network as seen by [response] *)

(** [ioutil.ReadAll(resp.Body)] *)
Inductive ReadResult := ReadOk (data : bytes) | ReadErr (e : goerror).

(** [(&http.Client{}).Do(req)] *)
Inductive DoResult :=
| DoError (e : goerror)
| DoResponse (StatusCode : Z) (body : ReadResult).

(** [net_NewRequest url] is the error of [http.NewRequest("GET", url, nil)];
    [net_Do url] is [None] when the round trip never returns, and
    [Some (d, r)] when it returns [r] (body read included) after [d]. *)
Record Net := mkNet {
  net_NewRequest : string -> option goerror;
  net_Do : string -> option (Duration * DoResult) }.

(** ** json.Unmarshal(data, obj) *)
Definition json_Unmarshal {S} (rp : ResponseParser S) (data : bytes) (obj : ref) (h : Heap S)
  : Heap S * option goerror :=
  if Json.checkValid data then
    let (v, err) := rp_decode rp data (objs h obj) in (heap_set h obj v, err)
  else (h, Some (ErrSyntax 0)).

(** ** response(url, obj)

    [func response(url string, obj ResponseParser)]: no result; [None] when
    the call never returns (the round trip hangs), otherwise the time it
    takes and the heap it leaves. *)
Definition response {S} (net : Net) (rp : ResponseParser S) (url : string) (obj : ref) (h : Heap S)
  : option (Duration * Heap S) :=
  match net_NewRequest net url with
  | Some _ => Some (0, h)
  | None =>
      match net_Do net url with
      | None => None
      | Some (d, DoError _) => Some (d, h)
      | Some (d, DoResponse _ (ReadErr _)) => Some (d, h)
      | Some (d, DoResponse _ (ReadOk data)) =>
          let (h', _) := json_Unmarshal rp (Trim data) obj h in Some (d, h')
      end
  end.

(** ** The race of Geocode / ReverseGeocode

    Both operations have the same shape: a goroutine computes
    [response(url, g.ResponseObject())] and then sends a value read from the
    facade's own parser on an unbuffered channel; the caller [select]s on
    that channel and on [time.After(timeoutInSeconds)]. A [Call] collects
    what differs between the two. *)
Record Call (S R : Type) := mkCall {
  call_url : string;                   (* g.GeocodeUrl(...) / g.ReverseGeocodeUrl(...) *)
  call_self : ref;                     (* the receiver g's embedded ResponseParser *)
  call_read : Heap S -> R;             (* g.Location() / g.Address() *)
  call_zero : R;                       (* Location{} / "" *)
  call_classify : R -> option goerror  (* anyError(v) *) }.
Arguments mkCall {S R}. Arguments call_url {S R}. Arguments call_self {S R}.
Arguments call_read {S R}. Arguments call_zero {S R}. Arguments call_classify {S R}.

(** [func (g Geocoder) Geocode(address string) (Location, error)] *)
Definition Geocode {S} (rp : ResponseParser S) (g : Geocoder) (address : string) : Call S Location :=
  mkCall (GeocodeUrl (g_EndpointBuilder g) (QueryEscape address))
         (g_ResponseParser g)
         (fun h => rp_Location rp (objs h (g_ResponseParser g)))
         Location0
         (fun location => anyError (AnyLocation location)).

(** [func (g Geocoder) ReverseGeocode(lat, lng float64) (string, error)] *)
Definition ReverseGeocode {S} (rp : ResponseParser S) (g : Geocoder) (lat lng : float64)
  : Call S string :=
  mkCall (ReverseGeocodeUrl (g_EndpointBuilder g) (mkLocation lat lng))
         (g_ResponseParser g)
         (fun h => rp_Address rp (objs h (g_ResponseParser g)))
         ""%string
         (fun address => anyError (AnyString address)).

(** The worker's call [response(url, g.ResponseObject())]: when it returns,
    after how long and with which heap. *)
Definition worker_result {S R} (net : Net) (rp : ResponseParser S) (c : Call S R) (h : Heap S)
  : option (Duration * Heap S) :=
  let (h1, obj) := rp_ResponseObject rp (call_self c) h in
  response net rp (call_url c) obj h1.

(** The goroutine: fetching, blocked on [ch <- v], or finished. *)
Inductive Worker (R : Type) := WFetching | WSending (v : R) | WExited.
Arguments WFetching {R}. Arguments WSending {R}. Arguments WExited {R}.

(** The caller: in the [select], or returned [(v, err)] at time [t]. *)
Inductive Main (R : Type) := MSelecting | MReturned (v : R) (err : option goerror) (t : Duration).
Arguments MSelecting {R}. Arguments MReturned {R}.

Record CallState (S R : Type) := mkCallState {
  cs_main : Main R;
  cs_worker : Worker R;
  cs_heap : Heap S;
  cs_clock : Duration }.
Arguments mkCallState {S R}. Arguments cs_main {S R}. Arguments cs_worker {S R}.
Arguments cs_heap {S R}. Arguments cs_clock {S R}.

(** One step of a call, the clock counting from the call's start. Events
    are urgent: time cannot pass a pending deadline, nor while the worker
    and the caller are both ready to communicate. *)
Inductive call_step {S R} (net : Net) (rp : ResponseParser S) (c : Call S R)
  : CallState S R -> CallState S R -> Prop :=
| step_fetch m h t d h' :
    worker_result net rp c h = Some (d, h') -> d <= t ->
    call_step net rp c (mkCallState m WFetching h t)
                       (mkCallState m (WSending (call_read c h')) h' t)
| step_recv v h t :
    call_step net rp c (mkCallState MSelecting (WSending v) h t)
                       (mkCallState (MReturned v (call_classify c v) t) WExited h t)
| step_timeout w h t :
    timeoutInSeconds <= t ->
    call_step net rp c (mkCallState MSelecting w h t)
                       (mkCallState (MReturned (call_zero c) (Some TimeoutError) t) w h t)
| step_tick m w h t dt :
    0 < dt ->
    (m = MSelecting -> t + dt <= timeoutInSeconds) ->
    (w = WFetching -> forall d h', worker_result net rp c h = Some (d, h') -> t + dt <= d) ->
    (m = MSelecting -> forall v, w <> WSending v) ->
    call_step net rp c (mkCallState m w h t) (mkCallState m w h (t + dt)).

Inductive star {A} (r : A -> A -> Prop) : A -> A -> Prop :=
| star_refl x : star r x x
| star_step x y z : r x y -> star r y z -> star r x z.

Definition call_init {S R} (h : Heap S) : CallState S R :=
  mkCallState MSelecting WFetching h 0.

(** The states a call started on heap [h] can reach. *)
Definition reachable {S R} (net : Net) (rp : ResponseParser S) (c : Call S R) (h : Heap S)
  (s : CallState S R) : Prop :=
  star (call_step net rp c) (call_init h) s.

(** The invariant of a call: what a value sent by the worker is, and what
    the caller can have returned. *)
Definition call_inv {S R} (c : Call S R) (s : CallState S R) : Prop :=
  (forall v, cs_worker s = WSending v -> exists h, v = call_read c h) /\
  match cs_main s with
  | MSelecting => cs_worker s <> WExited /\ cs_clock s <= timeoutInSeconds
  | MReturned v e t =>
      (cs_worker s = WExited /\ e = call_classify c v /\ exists h, v = call_read c h)
      \/ (cs_worker s <> WExited /\ v = call_zero c /\ e = Some TimeoutError
          /\ t = timeoutInSeconds)
  end.

(** ** Fake providers and transports (as in the package's test scenarios) *)
Module Fixtures.

#[local] Set Warnings "-inexact-float".

(** The literal scenario: [{"lat":48.8566,"lng":2.3522}]. *)
Definition dq : string := String "034"%char EmptyString.

Definition paris_body : bytes :=
  list_ascii_of_string
    ("{" ++ dq ++ "lat" ++ dq ++ ":48.8566," ++ dq ++ "lng" ++ dq ++ ":2.3522}")%string.

Definition paris : Location := mkLocation 48.8566%float 2.3522%float.

Definition fake_builder : EndpointBuilder :=
  mkEndpointBuilder (fun q => "http://fake/geocode?q=" ++ q)%string
                    (fun _ => "http://fake/reverse"%string).

(** A parser type whose state is the decoded location, whose
    [ResponseObject] returns a fresh blank instance, and whose decode
    always yields [paris]. *)
Definition fresh_parser : ResponseParser Location :=
  mkResponseParser (fun l => l) (fun _ => ""%string)
                   (fun _ h => heap_alloc h Location0)
                   (fun _ _ => (paris, None)).

(** A transport answering [status] with [body] after [d]. *)
Definition fixed_net (d : Duration) (status : Z) (body : bytes) : Net :=
  mkNet (fun _ => None) (fun _ => Some (d, DoResponse status (ReadOk body))).

(** One parser object, at [0], blank; [1] is the next free address. *)
Definition heap0 : Heap Location := mkHeap (fun _ => Location0) 1%nat.

Definition g0 : Geocoder := mkGeocoder fake_builder 0%nat.

(** [heap0] after [fresh_parser]'s [ResponseObject] allocated object [1]
    and the decode wrote [paris] into it. *)
Definition paris_heap : Heap Location :=
  heap_set (fst (heap_alloc heap0 Location0)) 1%nat paris.

(** A parser type that never produces a non-zero location. *)
Definition blank_parser : ResponseParser Location :=
  mkResponseParser (fun _ => Location0) (fun _ => ""%string)
                   (fun _ h => heap_alloc h Location0)
                   (fun _ st => (st, None)).

(** [heap0] after [blank_parser]'s [ResponseObject] and decode. *)
Definition blank_heap : Heap Location :=
  heap_set (fst (heap_alloc heap0 Location0)) 1%nat Location0.

End Fixtures.

(** * Proofs *)
Module JsonFacts.
Import Json.

Ltac unfold_scan :=
  unfold dstep, mode_of, depth, set_step, cont, push, pop,
          fn_stateEndTop, fn_stateEndValue, fn_stateBeginValue, fn_stateBeginValueOrEmpty,
          fn_stateBeginString, fn_stateBeginStringOrEmpty, fn_stateInString, fn_stateInStringEsc,
          fn_hex, fn_stateNeg, fn_state0, fn_state1, fn_stateDot, fn_stateDot0, fn_stateESign, fn_stateE,
          fn_stateE0, fn_lit, isSpace.

Ltac char_cases :=
  repeat (cbn beta iota zeta delta [parseStack step endTop orb andb negb];
   match goal with
   | |- _ => progress unfold_scan
   | |- context [Ascii.eqb ?c ?k] => is_var c; destruct (Ascii.eqb_spec c k) as [->|?]
   | |- context [isDigit ?c] => is_var c; destruct (isDigit c)
   | |- context [isDigit19 ?c] => is_var c; destruct (isDigit19 c)
   | |- context [isHex ?c] => is_var c; destruct (isHex c)
   | |- context [byte_val ?c <? 32] => is_var c; destruct (byte_val c <? 32)
   | |- context [Ascii.eqb ?a ?b] => let v := eval vm_compute in (Ascii.eqb a b) in change (Ascii.eqb a b) with v
   | |- context [isDigit ?a] => let v := eval vm_compute in (isDigit a) in change (isDigit a) with v
   | |- context [isDigit19 ?a] => let v := eval vm_compute in (isDigit19 a) in change (isDigit19 a) with v
   | |- context [isHex ?a] => let v := eval vm_compute in (isHex a) in change (isHex a) with v
   | |- context [byte_val ?a <? 32] => let v := eval vm_compute in (byte_val a <? 32) in change (byte_val a <? 32) with v
   end); cbn beta iota zeta delta [parseStack step endTop orb andb negb]; try exact I; try reflexivity; try (cbn [List.length]; f_equal; lia).

Lemma scan_step_depth (s : scanner) (c : ascii) :
  match scan_step s c with
  | Some s' => dstep (depth s, mode_of (step s)) c = (depth s', mode_of (step s'))
  | None => True
  end.
Proof.
  destruct s as [f stk et].
  destruct stk as [|p [|p' r]]; [|destruct p..]; destruct f; unfold scan_step; unfold_scan; char_cases.
Qed.

Lemma scan_step_top_inv (s : scanner) (c : ascii) :
  match scan_step s c with
  | Some s' => top_inv s -> top_inv s'
  | None => True
  end.
Proof.
  destruct s as [f stk et].
  destruct stk as [|p [|p' r]]; [|destruct p..]; destruct f; unfold scan_step; unfold_scan;
    char_cases; unfold top_inv; cbn; intros H E; try (split; reflexivity);
    try (destruct (H E) as [H1 H2]; discriminate).
Qed.

(** A comma outside a string literal is accepted only inside an array or an
    object. *)
Lemma scan_step_comma (s : scanner) :
  match scan_step s "," with
  | Some _ => mode_of (step s) = MOut -> 1 <= depth s
  | None => True
  end.
Proof.
  destruct s as [f stk et].
  destruct stk as [|p [|p' r]]; [|destruct p..]; destruct f; unfold scan_step; unfold_scan;
    char_cases; intros; try discriminate; cbn [List.length]; lia.
Qed.


Lemma scan_run_app (s : scanner) (a b : bytes) :
  scan_run s (a ++ b) = match scan_run s a with Some s' => scan_run s' b | None => None end.
Proof.
  revert s; induction a as [|c a IH]; intros s; cbn; [reflexivity|].
  destruct (scan_step s c); [apply IH | reflexivity].
Qed.

Lemma scan_run_depth (s s' : scanner) (a : bytes) :
  scan_run s a = Some s' -> drun (depth s, mode_of (step s)) a = (depth s', mode_of (step s')).
Proof.
  revert s; induction a as [|c a IH]; intros s H; cbn in H.
  - injection H as <-; reflexivity.
  - pose proof (scan_step_depth s c) as Hd.
    destruct (scan_step s c) as [s1|] eqn:E; [|discriminate].
    cbn [drun]; rewrite Hd; apply IH, H.
Qed.

Lemma scan_run_top_inv (s s' : scanner) (a : bytes) :
  scan_run s a = Some s' -> top_inv s -> top_inv s'.
Proof.
  revert s; induction a as [|c a IH]; intros s H Hi; cbn in H.
  - injection H as <-; exact Hi.
  - pose proof (scan_step_top_inv s c) as Hd.
    destruct (scan_step s c) as [s1|] eqn:E; [|discriminate].
    exact (IH s1 H (Hd Hi)).
Qed.

Lemma drun_app (dm : Z * mode) (a b : bytes) : drun dm (a ++ b) = drun (drun dm a) b.
Proof. revert dm; induction a as [|c a IH]; intros dm; [reflexivity|apply IH]. Qed.

Lemma dstep_shift (d k : Z) (m : mode) (c : ascii) :
  dstep (d + k, m) c = (fst (dstep (d, m) c) + k, snd (dstep (d, m) c)).
Proof.
  destruct m; cbn;
    repeat match goal with |- context [if ?b then _ else _] => destruct b end;
    cbn; f_equal; lia.
Qed.

Lemma drun_shift (d k : Z) (m : mode) (a : bytes) :
  drun (d + k, m) a = (fst (drun (d, m) a) + k, snd (drun (d, m) a)).
Proof.
  revert d m; induction a as [|c a IH]; intros d m; [reflexivity|].
  cbn [drun]. rewrite dstep_shift.
  destruct (dstep (d, m) c) as [d1 m1]; cbn [fst snd]. apply IH.
Qed.

Lemma drun_cutset (d : Z) (p : bytes) :
  forallb in_cutset p = true -> snd (drun (d, MOut) p) = MOut.
Proof.
  revert d; induction p as [|c p IH]; intros d H; [reflexivity|].
  cbn in H; apply andb_prop in H as [Hc Hp].
  unfold in_cutset in Hc; cbn [drun].
  destruct (Ascii.eqb_spec c " ") as [->|]; [apply IH, Hp|].
  destruct (Ascii.eqb_spec c "[") as [->|]; [apply IH, Hp|].
  destruct (Ascii.eqb_spec c "]") as [->|]; [apply IH, Hp|].
  discriminate.
Qed.

Lemma checkValid_prefix (a b : bytes) :
  checkValid (a ++ b) = true -> exists s, scan_run reset a = Some s.
Proof.
  unfold checkValid; rewrite scan_run_app.
  destruct (scan_run reset a) as [s|]; [eauto|discriminate].
Qed.

(** A valid JSON text is balanced and ends outside any string literal. *)
Lemma checkValid_balanced (e : bytes) :
  checkValid e = true -> drun (0, MOut) e = (0, MOut).
Proof.
  unfold checkValid. destruct (scan_run reset e) as [s|] eqn:Hr; [|discriminate].
  intros Heof.
  pose proof (scan_run_depth _ _ _ Hr) as Hd. cbn in Hd. rewrite Hd.
  assert (Hi : top_inv s) by (apply (scan_run_top_inv reset s e Hr); intros H; discriminate).
  unfold eof in Heof. destruct (endTop s) eqn:Et.
  - destruct (Hi Et) as [H1 H2]. unfold depth; rewrite H1, H2; reflexivity.
  - pose proof (scan_step_depth s " ") as Hd1. pose proof (scan_step_top_inv s " ") as Hi1.
    destruct (scan_step s " ") as [s1|]; [|discriminate].
    destruct (Hi1 Hi Heof) as [H1 H2].
    unfold depth in Hd1 |- *. rewrite H1, H2 in Hd1. cbn in Hd1.
    destruct (mode_of (step s)); cbn in Hd1; congruence.
Qed.


End JsonFacts.

Module TrimFacts.

Lemma trim_left_stop (a b : bytes) (c : ascii) :
  in_cutset c = false ->
  exists p x, a = p ++ x /\ forallb in_cutset p = true /\ trim_left (a ++ c :: b) = x ++ c :: b.
Proof.
  intros Hc; induction a as [|d a IH].
  - exists [], []; cbn; rewrite Hc; auto.
  - cbn [app trim_left]. destruct (in_cutset d) eqn:Hd.
    + destruct IH as (p & x & -> & Hp & Ht). exists (d :: p), x; cbn; rewrite Hd, Hp; auto.
    + exists [], (d :: a); auto.
Qed.

Lemma trim_right_stop (x b : bytes) (c : ascii) :
  in_cutset c = false -> exists b', trim_right (x ++ c :: b) = x ++ c :: b'.
Proof.
  intros Hc. unfold trim_right.
  rewrite rev_app_distr; cbn [rev]; rewrite <- app_assoc; cbn [app].
  destruct (trim_left_stop (rev b) (rev x) c Hc) as (p & y & Hb & _ & ->).
  exists (rev y). rewrite rev_app_distr; cbn [rev]; rewrite rev_involutive, <- app_assoc; reflexivity.
Qed.

Lemma trim_left_cutset_prefix (p x : bytes) :
  forallb in_cutset p = true -> trim_left (p ++ x) = trim_left x.
Proof.
  induction p as [|c p IH]; cbn; [reflexivity|].
  intros H; apply andb_prop in H as [Hc Hp]; rewrite Hc; apply IH, Hp.
Qed.

Lemma trim_left_all (q : bytes) : forallb in_cutset q = true -> trim_left q = [].
Proof. intros H. rewrite <- (app_nil_r q), trim_left_cutset_prefix by exact H. reflexivity. Qed.

Lemma forallb_rev {A} (f : A -> bool) (l : list A) : forallb f (rev l) = forallb f l.
Proof.
  induction l as [|a l IH]; cbn; [reflexivity|].
  rewrite forallb_app, IH; cbn. rewrite andb_true_r, andb_comm; reflexivity.
Qed.

Lemma trim_right_cutset_suffix (x q : bytes) :
  forallb in_cutset q = true -> trim_right (x ++ q) = trim_right x.
Proof.
  intros H. unfold trim_right. rewrite rev_app_distr, trim_left_cutset_prefix; [reflexivity|].
  rewrite forallb_rev; exact H.
Qed.

Lemma trim_left_app_cutset (s q : bytes) :
  forallb in_cutset q = true ->
  trim_left (s ++ q) = trim_left s ++ q \/ (trim_left s = [] /\ trim_left (s ++ q) = []).
Proof.
  intros Hq; induction s as [|c s IH]; cbn.
  - right; split; [reflexivity|apply trim_left_all, Hq].
  - destruct (in_cutset c); [exact IH|left; reflexivity].
Qed.

(** Bytes of the cutset around a body never matter. *)
Lemma Trim_strip (p s q : bytes) :
  forallb in_cutset p = true -> forallb in_cutset q = true -> Trim (p ++ s ++ q) = Trim s.
Proof.
  intros Hp Hq. unfold Trim. rewrite trim_left_cutset_prefix by exact Hp.
  destruct (trim_left_app_cutset s q Hq) as [->|[-> ->]].
  - apply trim_right_cutset_suffix, Hq.
  - reflexivity.
Qed.

Lemma trim_left_spec (s : bytes) :
  exists p, s = p ++ trim_left s /\ forallb in_cutset p = true /\
            match trim_left s with [] => True | c :: _ => in_cutset c = false end.
Proof.
  induction s as [|c s IH]; cbn.
  - exists []; auto.
  - destruct (in_cutset c) eqn:Hc.
    + destruct IH as (p & Hs & Hp & Hh). exists (c :: p). cbn; rewrite Hc, Hp.
      split; [rewrite <- Hs; reflexivity|auto].
    + exists []; auto.
Qed.

Lemma trim_right_spec (s : bytes) :
  exists q, s = trim_right s ++ q /\ forallb in_cutset q = true /\
            match trim_right s with [] => True | c :: _ => in_cutset (last (trim_right s) c) = false end.
Proof.
  destruct (trim_left_spec (rev s)) as (p & Hs & Hp & Hh).
  exists (rev p). unfold trim_right. split; [|split].
  - rewrite <- rev_app_distr, <- Hs, rev_involutive; reflexivity.
  - rewrite forallb_rev; exact Hp.
  - destruct (trim_left (rev s)) as [|c t]; [exact I|]. cbn [rev].
    destruct (rev t ++ [c]) as [|d u] eqn:E; [destruct (rev t); discriminate|].
    rewrite <- E, last_last. exact Hh.
Qed.

End TrimFacts.

Module TrimJson.
Import Json JsonFacts TrimFacts.

(** Trimming a body ["[" ++ e1 ++ "," ++ rest] whose first element [e1] is a
    valid JSON text never yields a valid JSON text: the comma after [e1] ends
    up outside every bracket. *)
Lemma trim_multi_invalid (e1 rest : bytes) :
  checkValid e1 = true -> checkValid (Trim ("["%char :: e1 ++ ","%char :: rest)) = false.
Proof.
  intros He.
  destruct (checkValid (Trim ("["%char :: e1 ++ ","%char :: rest))) eqn:Ht; [|reflexivity].
  exfalso.
  unfold Trim in Ht. cbn [trim_left in_cutset Ascii.eqb Bool.eqb orb] in Ht.
  destruct (trim_left_stop e1 rest "," eq_refl) as (p & x & -> & Hp & Htl).
  rewrite Htl in Ht.
  destruct (trim_right_stop x rest "," eq_refl) as (b' & Htr). rewrite Htr in Ht.
  replace (x ++ ","%char :: b') with ((x ++ [","%char]) ++ b') in Ht
    by (rewrite <- app_assoc; reflexivity).
  destruct (checkValid_prefix _ _ Ht) as [s1 Hs1].
  rewrite scan_run_app in Hs1.
  destruct (scan_run reset x) as [sx|] eqn:Hx; [|discriminate].
  cbn in Hs1. pose proof (scan_step_comma sx) as Hcomma.
  destruct (scan_step sx ",") as [sc|]; [|discriminate].
  pose proof He as Hv. apply checkValid_balanced in He.
  destruct (checkValid_prefix p x Hv) as [sp Hsp].
  pose proof (scan_run_depth _ _ _ Hsp) as Dp; cbn in Dp.
  pose proof (scan_run_depth _ _ _ Hx) as Dx; cbn in Dx.
  rewrite drun_app in He.
  pose proof (drun_cutset 0 p Hp) as Mp.
  destruct (drun (0, MOut) p) as [dp mp]; cbn in Mp; subst mp.
  injection Dp as Dp _.
  pose proof (drun_shift 0 dp MOut x) as Sh. rewrite Z.add_0_l, He, Dx in Sh.
  cbn in Sh; injection Sh as H1 H2.
  specialize (Hcomma (eq_sym H2)).
  unfold depth in *; lia.
Qed.
End TrimJson.

Module CallFacts.

Section Race.
Context {S R : Type} (net : Net) (rp : ResponseParser S) (c : Call S R).

Lemma call_inv_init (h : Heap S) : call_inv c (call_init h).
Proof.
  split; [intros v Hv; discriminate|]. cbn. split; [discriminate|].
  unfold timeoutInSeconds, Second; lia.
Qed.

Lemma call_inv_step (s s' : CallState S R) :
  call_step net rp c s s' -> call_inv c s -> call_inv c s'.
Proof.
  intros Hs [Hw Hm]; destruct Hs; cbn in *.
  - split; [intros v Hv; injection Hv as <-; eauto|].
    destruct m as [|v e t']; [destruct Hm as [_ Ht]; split; [discriminate|exact Ht]|].
    destruct Hm as [[Hx _]|[_ Hx]]; [discriminate|].
    right; split; [discriminate|exact Hx].
  - split; [intros v' Hv'; discriminate|].
    left; split; [reflexivity|]. split; [reflexivity|]. apply Hw; reflexivity.
  - destruct Hm as [Hx Ht]. split; [exact Hw|]. right. repeat split; auto. unfold timeoutInSeconds, Second in *; lia.
  - split; [exact Hw|]. destruct m as [|v e t']; [|exact Hm].
    destruct Hm as [Hx _]; split; [exact Hx|]. auto.
Qed.

Lemma star_inv (s s' : CallState S R) :
  star (call_step net rp c) s s' -> call_inv c s -> call_inv c s'.
Proof. induction 1; intros Hi; auto. apply IHstar, (call_inv_step x y); assumption. Qed.

Lemma reachable_inv (h : Heap S) (s : CallState S R) :
  reachable net rp c h s -> call_inv c s.
Proof. intros Hr; apply (star_inv _ _ Hr), call_inv_init. Qed.

(** Once the caller has returned it stays returned, and a worker that had
    not delivered its value by then never finishes: nobody receives on the
    unbuffered channel any more. *)
Lemma returned_worker_stuck (s s' : CallState S R) :
  star (call_step net rp c) s s' ->
  cs_main s <> MSelecting -> cs_worker s <> WExited ->
  cs_main s' = cs_main s /\ cs_worker s' <> WExited.
Proof.
  induction 1 as [x|x y z Hxy _ IH]; intros Hm Hw; [auto|].
  assert (cs_main y = cs_main x /\ cs_worker y <> WExited) as [Hm' Hw'].
  { destruct Hxy; cbn in *; try (split; [reflexivity|]); try congruence. }
  destruct (IH ltac:(congruence) Hw') as [H1 H2]. split; congruence.
Qed.

(** A worker answering at [d], within the timeout, is received. *)
Lemma fast_run (h h' : Heap S) (d : Duration) :
  0 < d <= timeoutInSeconds -> worker_result net rp c h = Some (d, h') ->
  reachable net rp c h
    (mkCallState (MReturned (call_read c h') (call_classify c (call_read c h')) d) WExited h' d).
Proof.
  intros Hd Hw. unfold reachable, call_init.
  eapply star_step.
  { apply (step_tick net rp c MSelecting WFetching h 0 d); [lia|intros _; lia| |].
    - intros _ d' h'' Hw'. rewrite Hw in Hw'. injection Hw' as <- <-. lia.
    - intros _ v; discriminate. }
  eapply star_step; [apply (step_fetch net rp c MSelecting h d d h' Hw); lia|].
  eapply star_step; [apply step_recv|]. apply star_refl.
Qed.

(** A worker answering at [d], after the timeout: the caller returns the
    zero value with [TimeoutError] at [timeoutInSeconds]; the worker then
    completes its fetch-and-decode and is left blocked on its send. *)
Lemma slow_run (h h' : Heap S) (d : Duration) :
  timeoutInSeconds < d -> worker_result net rp c h = Some (d, h') ->
  reachable net rp c h
    (mkCallState (MReturned (call_zero c) (Some TimeoutError) timeoutInSeconds)
                 (WSending (call_read c h')) h' d).
Proof.
  intros Hd Hw. unfold reachable, call_init.
  assert (HT : 0 < timeoutInSeconds) by (unfold timeoutInSeconds, Second; lia).
  eapply star_step.
  { apply (step_tick net rp c MSelecting WFetching h 0 timeoutInSeconds); [lia|intros _; lia| |].
    - intros _ d' h'' Hw'. rewrite Hw in Hw'. injection Hw' as <- <-. lia.
    - intros _ v; discriminate. }
  eapply star_step; [apply step_timeout; lia|].
  eapply star_step.
  { apply (step_tick net rp c _ WFetching h timeoutInSeconds (d - timeoutInSeconds)); [lia|discriminate| |].
    - intros _ d' h'' Hw'. rewrite Hw in Hw'. injection Hw' as <- <-. lia.
    - discriminate. }
  replace (timeoutInSeconds + (d - timeoutInSeconds)) with d by lia.
  eapply star_step; [apply (step_fetch net rp c _ h d d h' Hw); lia|].
  apply star_refl.
Qed.

End Race.

End CallFacts.

Import Fixtures CallFacts.

Lemma paris_worker (d : Duration) (address : string) :
  worker_result (fixed_net d 200 paris_body) fresh_parser (Geocode fresh_parser g0 address) heap0
  = Some (d, paris_heap).
Proof. vm_compute. reflexivity. Qed.

(** ** C1 *)

(** Claim C1: the Location returned by [Geocode] is the one exposed by the
    fresh per-request decode target. On the code: with a parser type whose
    [ResponseObject] returns a fresh blank instance and whose decode
    deterministically yields the non-zero [paris], and a transport answering
    in one second, [Geocode("Paris")] returns [(Location{0,0}, NoResultError)]
    while the decode target (object [1]) holds [paris]: the worker reads
    [g.Location()], the facade's own parser, not the decode target. *)
Theorem Geocode_reads_facade_parser :
  exists s, reachable (fixed_net Second 200 paris_body) fresh_parser
              (Geocode fresh_parser g0 "Paris") heap0 s
    /\ objs (cs_heap s) 1%nat = paris
    /\ cs_main s = MReturned Location0 (Some NoResultError) Second.
Proof.
  eexists. split; [|split].
  - apply (fast_run _ _ _ _ paris_heap Second); [unfold timeoutInSeconds, Second; lia|apply paris_worker].
  - reflexivity.
  - reflexivity.
Qed.

(** ** C2 *)

(** Claim C2: when the timeout wins, the worker runs to completion in the
    background. On the code: with a transport answering after nine seconds,
    [Geocode] returns [(Location{}, TimeoutError)] at eight seconds, the
    worker then finishes fetch-and-decode, and blocks for ever on the
    unbuffered send [ch <- g.Location()]: no later state has it finished. *)
Theorem Geocode_timeout_worker_blocked :
  exists s, reachable (fixed_net (9 * Second) 200 paris_body) fresh_parser
              (Geocode fresh_parser g0 "Paris") heap0 s
    /\ cs_main s = MReturned Location0 (Some TimeoutError) timeoutInSeconds
    /\ cs_worker s = WSending Location0
    /\ forall s', star (call_step (fixed_net (9 * Second) 200 paris_body) fresh_parser
                                  (Geocode fresh_parser g0 "Paris")) s s' ->
                  cs_worker s' <> WExited.
Proof.
  eexists. split; [|split; [|split]].
  - apply (slow_run _ _ _ _ paris_heap (9 * Second)); [unfold timeoutInSeconds, Second; lia|apply paris_worker].
  - reflexivity.
  - reflexivity.
  - intros s' Hs'. apply (returned_worker_stuck _ _ _ _ _ Hs'); cbn; discriminate.
Qed.

(** ** C3 *)

Lemma escape_bytes_length (l : list ascii) : (List.length l <= List.length (escape_bytes l))%nat.
Proof.
  induction l as [|c l IH]; cbn; [lia|].
  rewrite length_app. unfold escape_byte.
  destruct (shouldEscape c); [destruct (Ascii.eqb c " ")|]; cbn; lia.
Qed.

Lemma escape_bytes_id (l : list ascii) :
  escape_bytes l = l <-> forall c, In c l -> shouldEscape c = false.
Proof.
  induction l as [|c l IH]; cbn; [split; [intros _ c []|reflexivity]|].
  unfold escape_byte at 1. destruct (shouldEscape c) eqn:Hc.
  - split; [|intros H; rewrite (H c (or_introl eq_refl)) in Hc; discriminate].
    destruct (Ascii.eqb_spec c " ") as [->|Hne]; cbn; intros H.
    + discriminate.
    + injection H as _ H. pose proof (escape_bytes_length l). 
      apply (f_equal (@List.length ascii)) in H. cbn in H. lia.
  - cbn. split.
    + intros H; injection H as H. intros d [<-|Hd]; [exact Hc|]. apply IH; assumption.
    + intros H. f_equal. apply IH. intros d Hd. apply H. right; exact Hd.
Qed.

Lemma QueryEscape_id (address : string) :
  QueryEscape address = address <->
  forall c, In c (list_ascii_of_string address) -> shouldEscape c = false.
Proof.
  rewrite <- escape_bytes_id. unfold QueryEscape. split; intros H.
  - apply (f_equal list_ascii_of_string) in H.
    rewrite list_ascii_of_string_of_list_ascii in H. exact H.
  - rewrite H. apply string_of_list_ascii_of_string.
Qed.

(** Claim C3, as the code has it: [Geocode] hands the builder
    [url.QueryEscape(address)], which is the raw address exactly when every
    byte of it is an ASCII letter, a digit, or one of [- _ . ~]. *)
Theorem Geocode_builder_gets_escaped {S} (rp : ResponseParser S) (g : Geocoder) (address : string) :
  call_url (Geocode rp g address) = GeocodeUrl (g_EndpointBuilder g) (QueryEscape address)
  /\ (QueryEscape address = address <->
      forall c, In c (list_ascii_of_string address) -> shouldEscape c = false).
Proof. split; [reflexivity|apply QueryEscape_id]. Qed.

(** Claim C3 as stated fails: for the address ["New York"] the builder
    receives ["New+York"], not the caller's string. *)
Lemma Geocode_builder_not_raw :
  call_url (Geocode fresh_parser g0 "New York") = GeocodeUrl fake_builder "New+York"
  /\ call_url (Geocode fresh_parser g0 "New York") <> GeocodeUrl fake_builder "New York".
Proof. split; [reflexivity|vm_compute; discriminate]. Qed.

Lemma blank_worker (d : Duration) (address : string) :
  worker_result (fixed_net d 200 paris_body) blank_parser (Geocode blank_parser g0 address) heap0
  = Some (d, blank_heap).
Proof. vm_compute. reflexivity. Qed.

Lemma fast_net_bounds : 0 < Second <= timeoutInSeconds.
Proof. unfold timeoutInSeconds, Second; lia. Qed.

Lemma slow_net_bounds : timeoutInSeconds < 9 * Second.
Proof. unfold timeoutInSeconds, Second; lia. Qed.

(** ** C4 *)

(** Claim C4: [anyError] reports [NoResultError] for a Location exactly when
    both coordinates are zero (Go's [==] on floats: [-0] counts as zero, NaN
    does not) and for a string exactly when it is empty, and no error
    otherwise; so when the worker's value is received and the parser never
    produces a non-zero Location, [Geocode] returns a zero Location with
    [NoResultError]. *)
Theorem anyError_NoResult_rule {S} (rp : ResponseParser S) (net : Net) (g : Geocoder)
    (address : string) (h : Heap S) :
  (forall l, (anyError (AnyLocation l) = Some NoResultError <->
              (Lat l =? 0)%float = true /\ (Lng l =? 0)%float = true)
          /\ (anyError (AnyLocation l) = None <->
              ~ ((Lat l =? 0)%float = true /\ (Lng l =? 0)%float = true))) /\
  (forall a, (anyError (AnyString a) = Some NoResultError <-> a = ""%string)
          /\ (anyError (AnyString a) = None <-> a <> ""%string)) /\
  ((forall x, Location_eqb (rp_Location rp x) Location0 = true) ->
   forall s v e t, reachable net rp (Geocode rp g address) h s ->
   cs_main s = MReturned v e t -> cs_worker s = WExited ->
   Location_eqb v Location0 = true /\ e = Some NoResultError).
Proof.
  split; [|split].
  - intros l. cbn.
    destruct (Lat l =? 0)%float, (Lng l =? 0)%float; cbn; intuition congruence.
  - intros a. cbn. destruct (String.eqb_spec a ""); intuition congruence.
  - intros Hz s v e t Hr Hm Hw.
    destruct (reachable_inv _ _ _ _ _ Hr) as [_ Hi]. rewrite Hm in Hi.
    destruct Hi as [[_ [He [h1 Hv]]]|[Hx _]]; [|contradiction].
    cbn in He, Hv. subst v e.
    specialize (Hz (objs h1 (g_ResponseParser g))).
    unfold Location_eqb in Hz |- *. unfold anyError.
    apply andb_prop in Hz as [H1 H2]. cbn [Lat Lng Location0] in H1, H2 |- *.
    rewrite H1, H2. auto.
Qed.

Lemma anyError_NoResult_rule_witness :
  (forall x, Location_eqb (rp_Location blank_parser x) Location0 = true) /\
  reachable (fixed_net Second 200 paris_body) blank_parser (Geocode blank_parser g0 "Paris") heap0
    (mkCallState (MReturned Location0 (Some NoResultError) Second) WExited blank_heap Second) /\
  Location_eqb Location0 Location0 = true /\ Some NoResultError = Some NoResultError.
Proof.
  assert (Hz : forall x, Location_eqb (rp_Location blank_parser x) Location0 = true)
    by (intros x; reflexivity).
  assert (Hr : reachable (fixed_net Second 200 paris_body) blank_parser
                 (Geocode blank_parser g0 "Paris") heap0
                 (mkCallState (MReturned Location0 (Some NoResultError) Second) WExited blank_heap Second))
    by exact (fast_run (fixed_net Second 200 paris_body) blank_parser (Geocode blank_parser g0 "Paris")
                heap0 blank_heap Second fast_net_bounds (blank_worker Second "Paris")).
  split; [exact Hz|]. split; [exact Hr|].
  exact (proj2 (proj2 (anyError_NoResult_rule blank_parser (fixed_net Second 200 paris_body) g0
                          "Paris" heap0))
           Hz _ Location0 (Some NoResultError) Second Hr eq_refl eq_refl).
Defined.

Lemma paris_worker_reverse (d : Duration) (lat lng : float64) :
  worker_result (fixed_net d 200 paris_body) fresh_parser (ReverseGeocode fresh_parser g0 lat lng) heap0
  = Some (d, paris_heap).
Proof. vm_compute. reflexivity. Qed.

Lemma returned_without_delivery {S R} (net : Net) (rp : ResponseParser S) (c : Call S R)
    (h : Heap S) (s : CallState S R) (v : R) (e : option goerror) (t : Duration) :
  reachable net rp c h s -> cs_main s = MReturned v e t -> cs_worker s <> WExited ->
  v = call_zero c /\ e = Some TimeoutError /\ t = timeoutInSeconds.
Proof.
  intros Hr Hm Hw. destruct (reachable_inv _ _ _ _ _ Hr) as [_ Hi]. rewrite Hm in Hi.
  destruct Hi as [[Hx _]|[_ H]]; [contradiction|exact H].
Qed.

(** ** C5 *)

(** Claim C5: in both [Geocode] and [ReverseGeocode], a call that returns
    before the worker delivered its value returns the zero value of its
    result type ([Location{}] or [""]) with [TimeoutError], and returns at
    [timeoutInSeconds], the one constant both operations use, eight
    seconds. *)
Theorem timeout_returns_zero_value {S} (rp : ResponseParser S) (net : Net) (g : Geocoder)
    (address : string) (lat lng : float64) (h : Heap S) :
  timeoutInSeconds = 8 * Second /\
  (forall s v e t, reachable net rp (Geocode rp g address) h s ->
     cs_main s = MReturned v e t -> cs_worker s <> WExited ->
     v = Location0 /\ e = Some TimeoutError /\ t = 8 * Second) /\
  (forall s v e t, reachable net rp (ReverseGeocode rp g lat lng) h s ->
     cs_main s = MReturned v e t -> cs_worker s <> WExited ->
     v = ""%string /\ e = Some TimeoutError /\ t = 8 * Second).
Proof.
  split; [reflexivity|split].
  - intros s v e t Hr Hm Hw. exact (returned_without_delivery _ _ _ _ _ _ _ _ Hr Hm Hw).
  - intros s v e t Hr Hm Hw. exact (returned_without_delivery _ _ _ _ _ _ _ _ Hr Hm Hw).
Qed.

Lemma timeout_returns_zero_value_witness :
  reachable (fixed_net (9 * Second) 200 paris_body) fresh_parser (Geocode fresh_parser g0 "Paris") heap0
    (mkCallState (MReturned Location0 (Some TimeoutError) timeoutInSeconds)
                 (WSending Location0) paris_heap (9 * Second)) /\
  reachable (fixed_net (9 * Second) 200 paris_body) fresh_parser (ReverseGeocode fresh_parser g0 0%float 0%float) heap0
    (mkCallState (MReturned ""%string (Some TimeoutError) timeoutInSeconds)
                 (WSending ""%string) paris_heap (9 * Second)) /\
  (Location0 = Location0 /\ Some TimeoutError = Some TimeoutError /\ timeoutInSeconds = 8 * Second) /\
  (""%string = ""%string /\ Some TimeoutError = Some TimeoutError /\ timeoutInSeconds = 8 * Second).
Proof.
  assert (H1 : reachable (fixed_net (9 * Second) 200 paris_body) fresh_parser
                 (Geocode fresh_parser g0 "Paris") heap0
                 (mkCallState (MReturned Location0 (Some TimeoutError) timeoutInSeconds)
                              (WSending Location0) paris_heap (9 * Second)))
    by exact (slow_run (fixed_net (9 * Second) 200 paris_body) fresh_parser
                (Geocode fresh_parser g0 "Paris") heap0 paris_heap (9 * Second)
                slow_net_bounds (paris_worker (9 * Second) "Paris")).
  assert (H2 : reachable (fixed_net (9 * Second) 200 paris_body) fresh_parser
                 (ReverseGeocode fresh_parser g0 0%float 0%float) heap0
                 (mkCallState (MReturned ""%string (Some TimeoutError) timeoutInSeconds)
                              (WSending ""%string) paris_heap (9 * Second)))
    by exact (slow_run (fixed_net (9 * Second) 200 paris_body) fresh_parser
                (ReverseGeocode fresh_parser g0 0%float 0%float) heap0 paris_heap (9 * Second)
                slow_net_bounds (paris_worker_reverse (9 * Second) 0%float 0%float)).
  pose proof (timeout_returns_zero_value fresh_parser (fixed_net (9 * Second) 200 paris_body) g0
                "Paris" 0%float 0%float heap0) as [_ [HG HR]].
  split; [exact H1|]. split; [exact H2|]. split.
  - exact (HG _ _ _ _ H1 eq_refl ltac:(discriminate)).
  - exact (HR _ _ _ _ H2 eq_refl ltac:(discriminate)).
Defined.

(** ** C6 *)

(** Claim C6: whatever the transport and the parser do, the error a call of
    [Geocode] or [ReverseGeocode] returns is [nil], [TimeoutError] or
    [NoResultError]; the errors of request construction, transport, body
    read and decoding never reach the caller. *)
Theorem returned_errors_are_sentinels {S} (rp : ResponseParser S) (net : Net) (g : Geocoder)
    (address : string) (lat lng : float64) (h : Heap S) :
  (forall s v e t, reachable net rp (Geocode rp g address) h s -> cs_main s = MReturned v e t ->
     e = None \/ e = Some TimeoutError \/ e = Some NoResultError) /\
  (forall s v e t, reachable net rp (ReverseGeocode rp g lat lng) h s -> cs_main s = MReturned v e t ->
     e = None \/ e = Some TimeoutError \/ e = Some NoResultError).
Proof.
  split; intros s v e t Hr Hm;
    destruct (reachable_inv _ _ _ _ _ Hr) as [_ Hi]; rewrite Hm in Hi;
    (destruct Hi as [[_ [He _]]|[_ [_ [He _]]]]; [|right; left; exact He]);
    cbn in He; subst e; unfold anyError;
    repeat match goal with |- context [if ?b then _ else _] => destruct b end; auto.
Qed.

Lemma returned_errors_are_sentinels_witness :
  reachable (fixed_net (9 * Second) 200 paris_body) fresh_parser (Geocode fresh_parser g0 "Paris") heap0
    (mkCallState (MReturned Location0 (Some TimeoutError) timeoutInSeconds)
                 (WSending Location0) paris_heap (9 * Second)) /\
  reachable (fixed_net Second 200 paris_body) fresh_parser (ReverseGeocode fresh_parser g0 0%float 0%float) heap0
    (mkCallState (MReturned ""%string (Some NoResultError) Second) WExited paris_heap Second) /\
  (Some TimeoutError = None \/ Some TimeoutError = Some TimeoutError \/ Some TimeoutError = Some NoResultError) /\
  (Some NoResultError = None \/ Some NoResultError = Some TimeoutError \/ Some NoResultError = Some NoResultError).
Proof.
  assert (H1 : reachable (fixed_net (9 * Second) 200 paris_body) fresh_parser
                 (Geocode fresh_parser g0 "Paris") heap0
                 (mkCallState (MReturned Location0 (Some TimeoutError) timeoutInSeconds)
                              (WSending Location0) paris_heap (9 * Second)))
    by exact (slow_run (fixed_net (9 * Second) 200 paris_body) fresh_parser
                (Geocode fresh_parser g0 "Paris") heap0 paris_heap (9 * Second)
                slow_net_bounds (paris_worker (9 * Second) "Paris")).
  assert (H2 : reachable (fixed_net Second 200 paris_body) fresh_parser
                 (ReverseGeocode fresh_parser g0 0%float 0%float) heap0
                 (mkCallState (MReturned ""%string (Some NoResultError) Second) WExited paris_heap Second))
    by exact (fast_run (fixed_net Second 200 paris_body) fresh_parser
                (ReverseGeocode fresh_parser g0 0%float 0%float) heap0 paris_heap Second
                fast_net_bounds (paris_worker_reverse Second 0%float 0%float)).
  split; [exact H1|]. split; [exact H2|]. split.
  - exact (proj1 (returned_errors_are_sentinels fresh_parser (fixed_net (9 * Second) 200 paris_body)
                    g0 "Paris" 0%float 0%float heap0) _ _ _ _ H1 eq_refl).
  - exact (proj2 (returned_errors_are_sentinels fresh_parser (fixed_net Second 200 paris_body)
                    g0 "Paris" 0%float 0%float heap0) _ _ _ _ H2 eq_refl).
Defined.

Import TrimFacts TrimJson.

(** ** C7 *)

(** Claim C7: fetch-and-decode leaves the heap, the decode target included,
    the same whether the body is [P] or [P] wrapped as ["[" ++ P ++ "]"]
    (for every [P], JSON object or not). *)
Theorem response_array_wrapped_same {S} (rp : ResponseParser S)
    (newreq : string -> option goerror) (d : Duration) (status : Z) (P : bytes)
    (url : string) (obj : ref) (h : Heap S) :
  response (mkNet newreq (fun _ => Some (d, DoResponse status (ReadOk ("["%char :: P ++ ["]"%char])))))
           rp url obj h
  = response (mkNet newreq (fun _ => Some (d, DoResponse status (ReadOk P)))) rp url obj h.
Proof.
  unfold response; cbn [net_NewRequest net_Do].
  replace ("["%char :: P ++ ["]"%char]) with (["["%char] ++ P ++ ["]"%char]) by reflexivity.
  rewrite Trim_strip by reflexivity. reflexivity.
Qed.

(** ** C8 *)

(** Claim C8: [response] has no result and lets no failure through. When it
    returns, the heap it leaves is the one it was given, except when a body
    was read whose trimmed text is valid JSON: then the decode target [obj],
    and nothing else, holds what the decode wrote. It does not return only
    when the round trip itself never returns. *)
Theorem response_absorbs_failures {S} (net : Net) (rp : ResponseParser S) (url : string)
    (obj : ref) (h : Heap S) :
  match response net rp url obj h with
  | None => net_NewRequest net url = None /\ net_Do net url = None
  | Some (_, h') =>
      h' = h \/
      exists d status data, net_NewRequest net url = None /\
        net_Do net url = Some (d, DoResponse status (ReadOk data)) /\
        Json.checkValid (Trim data) = true /\
        h' = heap_set h obj (fst (rp_decode rp (Trim data) (objs h obj)))
  end.
Proof.
  unfold response.
  destruct (net_NewRequest net url) eqn:Hn; [left; reflexivity|].
  destruct (net_Do net url) as [[d [e|status [data|e]]]|] eqn:Hd;
    [left; reflexivity| |left; reflexivity|auto].
  unfold json_Unmarshal.
  destruct (Json.checkValid (Trim data)) eqn:Hv; [|left; reflexivity].
  destruct (rp_decode rp (Trim data) (objs h obj)) as [v err] eqn:Hdec.
  right. exists d, status, data. rewrite Hdec. auto.
Qed.

(** ** C9 *)

(** Claim C9, as the code has it: [strings.Trim(s, " []")] cuts a body into
    a leading run of cutset bytes, the result, and a trailing run, whatever
    the JSON structure, the result neither starting nor ending with a
    cutset byte. A top-level JSON array of more than one element (opening
    bracket after at most some spaces) is never valid JSON once trimmed, so
    [json.Unmarshal] fails and [response] leaves the heap, decode target
    included, unchanged. *)
Theorem Trim_cuts_runs_multi_array_rejected :
  (forall body, exists p m q, body = p ++ m ++ q /\ forallb in_cutset p = true /\
     forallb in_cutset q = true /\ Trim body = m /\
     match m with [] => True | c :: _ => in_cutset c = false /\ in_cutset (last m c) = false end) /\
  (forall S (rp : ResponseParser S) (newreq : string -> option goerror) (d : Duration) (status : Z)
          (sp e1 rest : bytes) (url : string) (obj : ref) (h : Heap S),
     forallb (fun c => Ascii.eqb c " ") sp = true -> Json.checkValid e1 = true ->
     Json.checkValid (Trim (sp ++ "["%char :: e1 ++ ","%char :: rest)) = false /\
     json_Unmarshal rp (Trim (sp ++ "["%char :: e1 ++ ","%char :: rest)) obj h
       = (h, Some (ErrSyntax 0)) /\
     response (mkNet newreq (fun _ =>
                 Some (d, DoResponse status (ReadOk (sp ++ "["%char :: e1 ++ ","%char :: rest)))))
              rp url obj h
       = Some (match newreq url with Some _ => 0 | None => d end, h)).
Proof.
  split.
  - intros body.
    destruct (trim_left_spec body) as (p & Hb & Hp & Hh).
    destruct (trim_right_spec (trim_left body)) as (q & Ht & Hq & Hl).
    exists p, (trim_right (trim_left body)), q.
    split; [rewrite <- Ht; exact Hb|]. split; [exact Hp|]. split; [exact Hq|].
    split; [reflexivity|].
    destruct (trim_right (trim_left body)) as [|c m] eqn:Em; [exact I|].
    split; [|exact Hl].
    rewrite Ht in Hh. exact Hh.
  - intros S rp newreq d status sp e1 rest url obj h Hsp He1.
    assert (Hsp' : forallb in_cutset sp = true).
    { clear -Hsp. induction sp as [|c sp IH]; [reflexivity|].
      cbn in *. apply andb_prop in Hsp as [Hc Hs].
      apply Ascii.eqb_eq in Hc; subst c. exact (IH Hs). }
    assert (Hinv : Json.checkValid (Trim (sp ++ "["%char :: e1 ++ ","%char :: rest)) = false).
    { rewrite <- (app_nil_r (sp ++ _)), <- app_assoc, Trim_strip by (auto || reflexivity).
      apply trim_multi_invalid, He1. }
    assert (Hu : json_Unmarshal rp (Trim (sp ++ "["%char :: e1 ++ ","%char :: rest)) obj h
                 = (h, Some (ErrSyntax 0))) by (unfold json_Unmarshal; rewrite Hinv; reflexivity).
    split; [exact Hinv|]. split; [exact Hu|].
    unfold response; cbn [net_NewRequest net_Do].
    destruct (newreq url); [reflexivity|]. rewrite Hu. reflexivity.
Qed.

(** ["[1,2]"] *)
Lemma Trim_cuts_runs_multi_array_rejected_witness :
  forallb (fun c => Ascii.eqb c " ") [" "%char] = true /\
  Json.checkValid ["1"%char] = true /\
  response (mkNet (fun _ => None) (fun _ =>
              Some (Second, DoResponse 200 (ReadOk ([" "%char] ++ "["%char :: ["1"%char] ++ ","%char :: ["2"%char; "]"%char])))))
           fresh_parser "http://fake/geocode?q=x"%string 0%nat heap0
    = Some (Second, heap0).
Proof.
  assert (H1 : forallb (fun c => Ascii.eqb c " ") [" "%char] = true) by reflexivity.
  assert (H2 : Json.checkValid ["1"%char] = true) by reflexivity.
  split; [exact H1|]. split; [exact H2|].
  exact (proj2 (proj2 (proj2 Trim_cuts_runs_multi_array_rejected Location fresh_parser (fun _ => None)
                          Second 200 [" "%char] ["1"%char] ["2"%char; "]"%char]
                          "http://fake/geocode?q=x"%string 0%nat heap0 H1 H2))).
Defined.

(** Claim C9 as stated fails for bodies wrapped in more than one bracket:
    [[[{"lat":48.8566,"lng":2.3522}]]] trims to a valid object, which is
    decoded, and the decode target no longer holds the zero Location. *)
Lemma Trim_double_wrapped_decodes :
  Trim ("["%char :: "["%char :: paris_body ++ ["]"%char; "]"%char]) = paris_body /\
  Json.checkValid paris_body = true /\
  response (fixed_net Second 200 ("["%char :: "["%char :: paris_body ++ ["]"%char; "]"%char]))
           fresh_parser "http://fake/geocode?q=Paris"%string 0%nat heap0
    = Some (Second, heap_set heap0 0%nat paris) /\
  Location_eqb (objs (heap_set heap0 0%nat paris) 0%nat) Location0 = false.
Proof. vm_compute. repeat split; reflexivity. Qed.

(** ** C10 *)

(** Claim C10: [response] never looks at the status code: once the request
    is built, whatever the status, the body read is trimmed and handed to
    [json.Unmarshal], so a non-OK answer with a decodable body fills the
    decode target just as a [200] does. *)
Theorem response_ignores_status {S} (rp : ResponseParser S) (newreq : string -> option goerror)
    (d : Duration) (status status' : Z) (data : bytes) (url : string) (obj : ref) (h : Heap S) :
  newreq url = None ->
  response (mkNet newreq (fun _ => Some (d, DoResponse status (ReadOk data)))) rp url obj h
    = Some (d, fst (json_Unmarshal rp (Trim data) obj h)) /\
  response (mkNet newreq (fun _ => Some (d, DoResponse status (ReadOk data)))) rp url obj h
    = response (mkNet newreq (fun _ => Some (d, DoResponse status' (ReadOk data)))) rp url obj h.
Proof.
  intros Hn. unfold response; cbn [net_NewRequest net_Do]. rewrite Hn.
  destruct (json_Unmarshal rp (Trim data) obj h). split; reflexivity.
Qed.

(** A [404] carrying the Paris body fills the decode target with [paris]. *)
Lemma response_ignores_status_witness :
  (fun _ : string => @None goerror) "http://fake/geocode?q=Paris"%string = None /\
  response (mkNet (fun _ => None) (fun _ => Some (Second, DoResponse 404 (ReadOk paris_body))))
           fresh_parser "http://fake/geocode?q=Paris"%string 0%nat heap0
    = Some (Second, fst (json_Unmarshal fresh_parser (Trim paris_body) 0%nat heap0)) /\
  objs (fst (json_Unmarshal fresh_parser (Trim paris_body) 0%nat heap0)) 0%nat = paris.
Proof.
  assert (Hn : (fun _ : string => @None goerror) "http://fake/geocode?q=Paris"%string = None) by reflexivity.
  split; [exact Hn|]. split.
  - exact (proj1 (response_ignores_status fresh_parser (fun _ => None) Second 404 200 paris_body
                    "http://fake/geocode?q=Paris"%string 0%nat heap0 Hn)).
  - vm_compute. reflexivity.
Defined.

(** * Further properties of the package *)

Module RaceFacts.
Import CallFacts.

Section Race.
Context {S R : Type} (net : Net) (rp : ResponseParser S) (c : Call S R).

Lemma star_trans (x y z : CallState S R) :
  star (call_step net rp c) x y -> star (call_step net rp c) y z -> star (call_step net rp c) x z.
Proof. induction 1; intros Hz; [exact Hz|]. eapply star_step; eauto. Qed.

Lemma star_preserves (P : CallState S R -> Prop) :
  (forall s s', call_step net rp c s s' -> P s -> P s') ->
  forall s s', star (call_step net rp c) s s' -> P s -> P s'.
Proof. intros Hs s s' Hst; induction Hst; eauto. Qed.

Lemma timeout_pos : 0 < timeoutInSeconds.
Proof. unfold timeoutInSeconds, Second; lia. Qed.

Lemma fast_states (h h' : Heap S) (d : Duration) :
  0 <= d < timeoutInSeconds -> worker_result net rp c h = Some (d, h') ->
  forall s, reachable net rp c h s ->
  (cs_main s = MSelecting /\ cs_worker s = WFetching /\ cs_heap s = h /\ cs_clock s <= d)
  \/ (cs_main s = MSelecting /\ cs_worker s = WSending (call_read c h') /\ cs_heap s = h'
      /\ cs_clock s = d)
  \/ (cs_main s = MReturned (call_read c h') (call_classify c (call_read c h')) d
      /\ cs_worker s = WExited).
Proof.
  intros Hd Hw s Hr. unfold reachable in Hr.
  pattern s; refine (star_preserves _ _ (call_init h) s Hr _); [|left; cbn; repeat split; try reflexivity; lia].
  clear s Hr. intros s s' Hs Hi. destruct Hs; cbn in *.
  - destruct Hi as [(-> & _ & -> & Ht)|[(_ & Hx & _)|(_ & Hx)]]; try discriminate.
    rewrite Hw in H; injection H as <- <-. right; left. repeat split; auto; lia.
  - destruct Hi as [(_ & Hx & _)|[(_ & Hx & _ & ->)|(Hx & _)]]; try discriminate.
    injection Hx as ->. right; right. auto.
  - destruct Hi as [(_ & _ & _ & Ht)|[(_ & _ & _ & Ht)|(Hx & _)]]; try discriminate; lia.
  - destruct Hi as [(-> & -> & -> & Ht)|[(-> & -> & _ & _)|(-> & ->)]].
    + left. repeat split; auto. exact (H1 eq_refl d h' Hw).
    + exfalso. exact (H2 eq_refl _ eq_refl).
    + right; right; auto.
Qed.

Lemma slow_states (h : Heap S) :
  (worker_result net rp c h = None \/
   exists d h', worker_result net rp c h = Some (d, h') /\ timeoutInSeconds < d) ->
  forall s, reachable net rp c h s ->
  (cs_main s = MSelecting /\ cs_worker s = WFetching /\ cs_heap s = h
   /\ cs_clock s <= timeoutInSeconds)
  \/ cs_main s = MReturned (call_zero c) (Some TimeoutError) timeoutInSeconds.
Proof.
  intros Hw s Hr. unfold reachable in Hr. pose proof timeout_pos as HT0.
  pattern s; refine (star_preserves _ _ (call_init h) s Hr _); [|left; cbn; repeat split; try reflexivity; lia].
  clear s Hr. intros s s' Hs Hi. destruct Hs; cbn in *.
  - destruct Hi as [(-> & _ & -> & Ht)| ->]; [|right; reflexivity].
    exfalso. destruct Hw as [Hw|(d' & h'' & Hw & Hd')]; rewrite Hw in H; [discriminate|].
    injection H as <- <-. lia.
  - destruct Hi as [(_ & Hx & _)|Hx]; discriminate.
  - destruct Hi as [(_ & _ & _ & Ht)|Hx]; [|discriminate].
    right. f_equal. lia.
  - destruct Hi as [(-> & -> & -> & Ht)| ->]; [|right; reflexivity].
    left. repeat split; auto.
Qed.

Lemma deadline_states (h : Heap S) (s : CallState S R) :
  reachable net rp c h s ->
  match cs_main s with
  | MSelecting => cs_clock s <= timeoutInSeconds
  | MReturned _ _ t => t <= timeoutInSeconds
  end.
Proof.
  intros Hr. unfold reachable in Hr. pose proof timeout_pos as HT0.
  pattern s; refine (star_preserves _ _ (call_init h) s Hr _); [|cbn; lia].
  clear s Hr. intros s s' Hs Hi. destruct Hs; cbn in *; auto.
  destruct m; auto.
Qed.

Lemma selecting_progress (h : Heap S) (s : CallState S R) :
  reachable net rp c h s -> cs_main s = MSelecting ->
  exists s', star (call_step net rp c) s s' /\ cs_main s' <> MSelecting.
Proof.
  intros Hr Hm. pose proof timeout_pos as HT0.
  pose proof (reachable_inv net rp c h s Hr) as [_ Hi].
  pose proof (deadline_states h s Hr) as Ht.
  destruct s as [m w h0 t]; cbn in *; subst m. destruct Hi as [Hx _].
  assert (Hto : forall w' h1 t1, timeoutInSeconds <= t1 ->
            exists s', star (call_step net rp c) (mkCallState MSelecting w' h1 t1) s'
                       /\ cs_main s' <> MSelecting).
  { intros w' h1 t1 HT. eexists; split.
    - eapply star_step; [apply step_timeout; exact HT|]. apply star_refl.
    - cbn; discriminate. }
  assert (Hdone : forall v h1 t1,
            exists s', star (call_step net rp c) (mkCallState MSelecting (WSending v) h1 t1) s'
                       /\ cs_main s' <> MSelecting).
  { intros v h1 t1. eexists; split.
    - eapply star_step; [apply step_recv|]. apply star_refl.
    - cbn; discriminate. }
  destruct w as [|v|]; [|apply Hdone|congruence].
  destruct (Z_le_gt_dec timeoutInSeconds t) as [HT|HT]; [apply Hto; exact HT|].
  (* advance the clock to [t'] and continue from there *)
  assert (Htick : forall t', t < t' <= timeoutInSeconds ->
            (forall d h', worker_result net rp c h0 = Some (d, h') -> t' <= d) ->
            star (call_step net rp c) (mkCallState MSelecting WFetching h0 t)
                                      (mkCallState MSelecting WFetching h0 t')).
  { intros t' Ht' Hd. eapply star_step; [|apply star_refl].
    replace t' with (t + (t' - t)) by lia.
    apply step_tick; [lia|intros _; lia|intros _ d h' Hw; specialize (Hd d h' Hw); lia|].
    intros _ v; discriminate. }
  destruct (worker_result net rp c h0) as [[d h']|] eqn:Hw.
  - assert (Hfetch : forall t1, d <= t1 ->
              exists s', star (call_step net rp c) (mkCallState MSelecting WFetching h0 t1) s'
                         /\ cs_main s' <> MSelecting).
    { intros t1 Hd1. destruct (Hdone (call_read c h') h' t1) as (s' & Hs' & Hm').
      exists s'; split; [|exact Hm'].
      eapply star_step; [apply (step_fetch net rp c MSelecting h0 t1 d h' Hw Hd1)|exact Hs']. }
    destruct (Z_le_gt_dec d t) as [Hdt|Hdt]; [apply Hfetch; exact Hdt|].
    destruct (Z_le_gt_dec d timeoutInSeconds) as [HdT|HdT].
    + destruct (Hfetch d (Z.le_refl d)) as (s' & Hs' & Hm').
      exists s'; split; [|exact Hm'].
      refine (star_trans _ _ _ (Htick d _ _) Hs'); [lia|].
      intros d' h'' Hw'; injection Hw' as <- <-; lia.
    + destruct (Hto WFetching h0 timeoutInSeconds (Z.le_refl _)) as (s' & Hs' & Hm').
      exists s'; split; [|exact Hm'].
      refine (star_trans _ _ _ (Htick timeoutInSeconds _ _) Hs'); [lia|].
      intros d' h'' Hw'; injection Hw' as <- <-; lia.
  - destruct (Hto WFetching h0 timeoutInSeconds (Z.le_refl _)) as (s' & Hs' & Hm').
    exists s'; split; [|exact Hm'].
    refine (star_trans _ _ _ (Htick timeoutInSeconds _ _) Hs'); [lia|].
    intros d' h'' Hw'; discriminate.
Qed.

End Race.
End RaceFacts.

Module EscapeFacts.

Lemma ascii_cases (P : ascii -> bool) :
  (forall b0 b1 b2 b3 b4 b5 b6 b7, P (Ascii b0 b1 b2 b3 b4 b5 b6 b7) = true) ->
  forall c, P c = true.
Proof. intros H [b0 b1 b2 b3 b4 b5 b6 b7]. apply H. Qed.

Definition safe_out (x : ascii) : bool :=
  negb (shouldEscape x) || Ascii.eqb x "%" || Ascii.eqb x "+".

Lemma escape_byte_safe (c : ascii) : forallb safe_out (escape_byte c) = true.
Proof.
  revert c; apply ascii_cases.
  intros [] [] [] [] [] [] [] []; vm_compute; reflexivity.
Qed.

Lemma escape_byte_shape (c : ascii) :
  match escape_byte c with
  | [x] => x <> "%"%char
  | [x; _; _] => x = "%"%char
  | _ => False
  end.
Proof.
  destruct c as [[] [] [] [] [] [] [] []]; vm_compute; first [reflexivity | discriminate].
Qed.

Lemma escape_byte_length (c : ascii) :
  (1 <= List.length (escape_byte c) <= 3)%nat.
Proof.
  pose proof (escape_byte_shape c).
  destruct (escape_byte c) as [|x [|y [|z [|w r]]]]; cbn; try contradiction; lia.
Qed.

Lemma escape_byte_inj (c1 c2 : ascii) : escape_byte c1 = escape_byte c2 -> c1 = c2.
Proof.
  pose (all := map ascii_of_nat (seq 0 256)).
  pose (dec := fun l => find (fun c => if list_eq_dec ascii_dec (escape_byte c) l then true else false) all).
  assert (Hdec : forall c, dec (escape_byte c) = Some c).
  { intros c. destruct c as [[] [] [] [] [] [] [] []]; vm_compute; reflexivity. }
  intros E. apply (f_equal dec) in E. rewrite !Hdec in E. injection E as E. exact E.
Qed.

Lemma app_same_length {A} (a b x y : list A) :
  List.length a = List.length b -> a ++ x = b ++ y -> a = b /\ x = y.
Proof.
  revert b; induction a as [|u a IH]; intros [|v b] Hl E; cbn in *; try discriminate; auto.
  injection E as -> E. injection Hl as Hl. destruct (IH b Hl E) as [-> ->]; auto.
Qed.

Lemma escape_byte_prefix (c1 c2 : ascii) (x y : list ascii) :
  escape_byte c1 ++ x = escape_byte c2 ++ y -> c1 = c2 /\ x = y.
Proof.
  intros E.
  assert (Hl : List.length (escape_byte c1) = List.length (escape_byte c2)).
  { pose proof (escape_byte_shape c1) as S1. pose proof (escape_byte_shape c2) as S2.
    destruct (escape_byte c1) as [|a1 [|b1 [|d1 [|w1 r1]]]]; try contradiction;
    destruct (escape_byte c2) as [|a2 [|b2 [|d2 [|w2 r2]]]]; try contradiction;
    cbn in E |- *; injection E; intros; subst; auto; congruence. }
  destruct (app_same_length _ _ _ _ Hl E) as [E1 E2]. split; [apply escape_byte_inj|]; assumption.
Qed.

Lemma escape_bytes_inj (l1 l2 : list ascii) : escape_bytes l1 = escape_bytes l2 -> l1 = l2.
Proof.
  revert l2; induction l1 as [|c1 l1 IH]; intros [|c2 l2] E; cbn in E; auto.
  - pose proof (escape_byte_length c2). destruct (escape_byte c2); cbn in *; [lia|discriminate].
  - pose proof (escape_byte_length c1). destruct (escape_byte c1); cbn in *; [lia|discriminate].
  - destruct (escape_byte_prefix c1 c2 _ _ E) as [-> E']. f_equal. apply IH, E'.
Qed.

Lemma escape_bytes_safe_length (l : list ascii) :
  forallb safe_out (escape_bytes l) = true /\
  (List.length l <= List.length (escape_bytes l) <= 3 * List.length l)%nat.
Proof.
  induction l as [|c l [IH1 IH2]]; cbn; [split; [reflexivity|lia]|].
  rewrite forallb_app, escape_byte_safe, IH1, length_app. split; [reflexivity|].
  pose proof (escape_byte_length c). lia.
Qed.

End EscapeFacts.

Module TrimMore.
Import TrimFacts.

Lemma Trim_fixed (m : bytes) :
  match m with [] => True | c :: _ => in_cutset c = false /\ in_cutset (last m c) = false end ->
  Trim m = m.
Proof.
  destruct m as [|c r]; [reflexivity|]. intros [Hc Hl].
  unfold Trim. replace (trim_left (c :: r)) with (c :: r) by (cbn; rewrite Hc; reflexivity).
  unfold trim_right.
  destruct (@exists_last _ (c :: r)) as (u & z & E); [discriminate|].
  rewrite E in Hl |- *. rewrite last_last in Hl.
  rewrite rev_app_distr. cbn [rev app trim_left]. rewrite Hl. cbn [rev]. rewrite rev_involutive. reflexivity.
Qed.

Lemma Trim_shape (s : bytes) :
  match Trim s with [] => True | c :: _ => in_cutset c = false /\ in_cutset (last (Trim s) c) = false end.
Proof.
  destruct (trim_left_spec s) as (p & _ & _ & Hh).
  destruct (trim_right_spec (trim_left s)) as (q & Ht & _ & Hl).
  unfold Trim. destruct (trim_right (trim_left s)) as [|c m] eqn:Em; [exact I|].
  split; [|exact Hl]. rewrite Ht in Hh. exact Hh.
Qed.

Lemma Trim_all_cutset (data : bytes) : forallb in_cutset data = true -> Trim data = [].
Proof.
  intros H. unfold Trim. rewrite (trim_left_all data H). reflexivity.
Qed.

End TrimMore.

Module FloatZero.

Lemma eqb_zero (x : float) : (x =? 0)%float = true <-> x = 0%float \/ x = (-0)%float.
Proof.
  split.
  - intros H. rewrite FloatAxioms.eqb_spec in H.
    rewrite <- (FloatAxioms.SF2Prim_Prim2SF x).
    destruct (Prim2SF x) as [[]|[]| |[] m e]; vm_compute in H; try discriminate;
      [right|left]; vm_compute; reflexivity.
  - intros [-> | ->]; vm_compute; reflexivity.
Qed.

End FloatZero.

Module StrLen.
Lemma str_len (s : string) : String.length s = List.length (list_ascii_of_string s).
Proof. induction s as [|c s IH]; cbn; congruence. Qed.
End StrLen.

Import RaceFacts EscapeFacts TrimMore StrLen.

(** ** The race of [Geocode] and [ReverseGeocode] *)

(** An answer that the worker has in hand before the 8 second timeout is
    always the one returned: whatever the scheduling, the call returns the
    value the worker read after fetch-and-decode, classified by [anyError],
    at the moment the answer arrived. *)
Theorem Call_fast_answer_delivered {S R} (net : Net) (rp : ResponseParser S) (c : Call S R)
    (h h' : Heap S) (d : Duration) :
  worker_result net rp c h = Some (d, h') -> 0 <= d < timeoutInSeconds ->
  forall s v e t, reachable net rp c h s -> cs_main s = MReturned v e t ->
  v = call_read c h' /\ e = call_classify c v /\ t = d.
Proof.
  intros Hw Hd s v e t Hr Hm.
  destruct (fast_states net rp c h h' d Hd Hw s Hr) as [(Hx & _)|[(Hx & _)|(Hx & _)]];
    rewrite Hm in Hx; try discriminate.
  injection Hx as -> -> ->. auto.
Qed.

Lemma Call_fast_answer_delivered_witness :
  worker_result (fixed_net Second 200 paris_body) fresh_parser (Geocode fresh_parser g0 "Paris") heap0
    = Some (Second, paris_heap) /\
  0 <= Second < timeoutInSeconds /\
  reachable (fixed_net Second 200 paris_body) fresh_parser (Geocode fresh_parser g0 "Paris") heap0
    (mkCallState (MReturned Location0 (Some NoResultError) Second) WExited paris_heap Second) /\
  (Location0 = call_read (Geocode fresh_parser g0 "Paris") paris_heap
   /\ Some NoResultError = call_classify (Geocode fresh_parser g0 "Paris") Location0
   /\ Second = Second).
Proof.
  pose proof (paris_worker Second "Paris") as Hw.
  assert (Hd : 0 <= Second < timeoutInSeconds) by (unfold timeoutInSeconds, Second; lia).
  assert (Hr : reachable (fixed_net Second 200 paris_body) fresh_parser (Geocode fresh_parser g0 "Paris")
                 heap0 (mkCallState (MReturned Location0 (Some NoResultError) Second) WExited paris_heap Second))
    by exact (fast_run (fixed_net Second 200 paris_body) fresh_parser (Geocode fresh_parser g0 "Paris")
                heap0 paris_heap Second fast_net_bounds Hw).
  split; [exact Hw|]. split; [exact Hd|]. split; [exact Hr|].
  exact (Call_fast_answer_delivered _ _ _ _ _ _ Hw Hd _ _ _ _ Hr eq_refl).
Defined.

(** When the round trip never returns, or returns only after the 8 second
    timeout, every way the call can return is the timeout: the zero value of
    the result type with [TimeoutError], at exactly 8 seconds. *)
Theorem Call_late_answer_times_out {S R} (net : Net) (rp : ResponseParser S) (c : Call S R)
    (h : Heap S) :
  (worker_result net rp c h = None \/
   exists d h', worker_result net rp c h = Some (d, h') /\ timeoutInSeconds < d) ->
  forall s v e t, reachable net rp c h s -> cs_main s = MReturned v e t ->
  v = call_zero c /\ e = Some TimeoutError /\ t = timeoutInSeconds.
Proof.
  intros Hw s v e t Hr Hm.
  destruct (slow_states net rp c h Hw s Hr) as [(Hx & _)|Hx]; rewrite Hm in Hx; [discriminate|].
  injection Hx as -> -> ->. auto.
Qed.

Lemma Call_late_answer_times_out_witness :
  (worker_result (fixed_net (9 * Second) 200 paris_body) fresh_parser (Geocode fresh_parser g0 "Paris") heap0
     = None \/
   exists d h', worker_result (fixed_net (9 * Second) 200 paris_body) fresh_parser
                  (Geocode fresh_parser g0 "Paris") heap0 = Some (d, h') /\ timeoutInSeconds < d) /\
  reachable (fixed_net (9 * Second) 200 paris_body) fresh_parser (Geocode fresh_parser g0 "Paris") heap0
    (mkCallState (MReturned Location0 (Some TimeoutError) timeoutInSeconds)
                 (WSending Location0) paris_heap (9 * Second)) /\
  (Location0 = call_zero (Geocode fresh_parser g0 "Paris") /\ Some TimeoutError = Some TimeoutError
   /\ timeoutInSeconds = timeoutInSeconds).
Proof.
  assert (Hw : worker_result (fixed_net (9 * Second) 200 paris_body) fresh_parser
                 (Geocode fresh_parser g0 "Paris") heap0 = None \/
               exists d h', worker_result (fixed_net (9 * Second) 200 paris_body) fresh_parser
                 (Geocode fresh_parser g0 "Paris") heap0 = Some (d, h') /\ timeoutInSeconds < d)
    by (right; exists (9 * Second), paris_heap; split; [apply paris_worker|exact slow_net_bounds]).
  assert (Hr : reachable (fixed_net (9 * Second) 200 paris_body) fresh_parser
                 (Geocode fresh_parser g0 "Paris") heap0
                 (mkCallState (MReturned Location0 (Some TimeoutError) timeoutInSeconds)
                              (WSending Location0) paris_heap (9 * Second)))
    by exact (slow_run (fixed_net (9 * Second) 200 paris_body) fresh_parser (Geocode fresh_parser g0 "Paris")
                heap0 paris_heap (9 * Second) slow_net_bounds (paris_worker (9 * Second) "Paris")).
  split; [exact Hw|]. split; [exact Hr|].
  exact (Call_late_answer_times_out _ _ _ _ Hw _ _ _ _ Hr eq_refl).
Defined.

(** A call never hangs: from every state it can reach, it can go on to
    return, and every return happens at most 8 seconds after the call
    started, whatever the transport and the parser do. *)
Theorem Call_returns_by_deadline {S R} (net : Net) (rp : ResponseParser S) (c : Call S R)
    (h : Heap S) (s : CallState S R) :
  reachable net rp c h s ->
  (exists s' v e t, star (call_step net rp c) s s' /\ cs_main s' = MReturned v e t
                    /\ t <= timeoutInSeconds) /\
  (forall v e t, cs_main s = MReturned v e t -> t <= timeoutInSeconds).
Proof.
  intros Hr. pose proof (deadline_states net rp c h s Hr) as Hd. split.
  - destruct (cs_main s) as [|v e t] eqn:Hm.
    + destruct (selecting_progress net rp c h s Hr Hm) as (s' & Hs & Hm').
      assert (Hr' : reachable net rp c h s')
        by (unfold reachable in *; exact (star_trans net rp c _ _ _ Hr Hs)).
      pose proof (deadline_states net rp c h s' Hr') as Hd'.
      destruct (cs_main s') as [|v e t] eqn:E; [congruence|].
      exists s', v, e, t. auto.
    + exists s, v, e, t. split; [apply star_refl|auto].
  - intros v e t Hm. rewrite Hm in Hd. exact Hd.
Qed.

Lemma Call_returns_by_deadline_witness :
  reachable (fixed_net (9 * Second) 200 paris_body) fresh_parser (Geocode fresh_parser g0 "Paris") heap0
    (call_init heap0) /\
  ((exists s' v e t, star (call_step (fixed_net (9 * Second) 200 paris_body) fresh_parser
                             (Geocode fresh_parser g0 "Paris")) (call_init heap0) s'
                     /\ cs_main s' = MReturned v e t /\ t <= timeoutInSeconds) /\
   (forall v e t, cs_main (@call_init Location Location heap0) = MReturned v e t -> t <= timeoutInSeconds)).
Proof.
  assert (Hr : reachable (fixed_net (9 * Second) 200 paris_body) fresh_parser
                 (Geocode fresh_parser g0 "Paris") heap0 (call_init heap0)) by apply star_refl.
  split; [exact Hr|].
  exact (Call_returns_by_deadline _ _ _ _ _ Hr).
Defined.

(** When the answer arrives at exactly 8 seconds, both outcomes of the
    [select] can happen: the worker's value, classified, and the timeout. *)
Theorem Call_deadline_tie_both_outcomes {S R} (net : Net) (rp : ResponseParser S) (c : Call S R)
    (h h' : Heap S) :
  worker_result net rp c h = Some (timeoutInSeconds, h') ->
  reachable net rp c h
    (mkCallState (MReturned (call_read c h') (call_classify c (call_read c h')) timeoutInSeconds)
                 WExited h' timeoutInSeconds) /\
  reachable net rp c h
    (mkCallState (MReturned (call_zero c) (Some TimeoutError) timeoutInSeconds)
                 WFetching h timeoutInSeconds).
Proof.
  intros Hw. pose proof timeout_pos as HT0. split.
  - apply fast_run; [lia|exact Hw].
  - unfold reachable, call_init.
    eapply star_step.
    { apply (step_tick net rp c MSelecting WFetching h 0 timeoutInSeconds); [lia|intros _; lia| |].
      - intros _ d' h'' Hw'. rewrite Hw in Hw'. injection Hw' as <- <-. lia.
      - intros _ v; discriminate. }
    replace (0 + timeoutInSeconds) with timeoutInSeconds by lia.
    eapply star_step; [apply step_timeout; lia|]. apply star_refl.
Qed.

Lemma Call_deadline_tie_both_outcomes_witness :
  worker_result (fixed_net timeoutInSeconds 200 paris_body) fresh_parser
    (Geocode fresh_parser g0 "Paris") heap0 = Some (timeoutInSeconds, paris_heap) /\
  reachable (fixed_net timeoutInSeconds 200 paris_body) fresh_parser (Geocode fresh_parser g0 "Paris") heap0
    (mkCallState (MReturned Location0 (Some NoResultError) timeoutInSeconds)
                 WExited paris_heap timeoutInSeconds) /\
  reachable (fixed_net timeoutInSeconds 200 paris_body) fresh_parser (Geocode fresh_parser g0 "Paris") heap0
    (mkCallState (MReturned Location0 (Some TimeoutError) timeoutInSeconds)
                 WFetching heap0 timeoutInSeconds).
Proof.
  pose proof (paris_worker timeoutInSeconds "Paris") as Hw.
  split; [exact Hw|].
  exact (Call_deadline_tie_both_outcomes _ _ _ _ _ Hw).
Defined.

(** ** [url.QueryEscape], as [Geocode] uses it *)

(** Every byte of [url.QueryEscape(address)] is an ASCII letter, a digit,
    one of [- _ . ~], ['%'] or ['+']: no space, ['&'], ['='], ['#'] or
    ['?'] reaches the geocode URL builder. The escaped text is at least as
    long as the address and at most three times as long. *)
Theorem QueryEscape_safe_bytes_length (address : string) :
  (forall c, In c (list_ascii_of_string (QueryEscape address)) ->
             shouldEscape c = false \/ c = "%"%char \/ c = "+"%char) /\
  (String.length address <= String.length (QueryEscape address) <= 3 * String.length address)%nat.
Proof.
  destruct (escape_bytes_safe_length (list_ascii_of_string address)) as [Hs Hl]. split.
  - unfold QueryEscape. rewrite list_ascii_of_string_of_list_ascii.
    intros c Hc. pose proof (proj1 (forallb_forall _ _) Hs c Hc) as H. unfold safe_out in H.
    destruct (shouldEscape c); [right|left; reflexivity].
    cbn in H. apply orb_prop in H as [H|H]; apply Ascii.eqb_eq in H; auto.
  - rewrite !str_len. unfold QueryEscape. rewrite list_ascii_of_string_of_list_ascii. exact Hl.
Qed.

(** [url.QueryEscape] loses nothing: two addresses are escaped to the same
    text only when they are the same address. *)
Theorem QueryEscape_injective (a b : string) : QueryEscape a = QueryEscape b <-> a = b.
Proof.
  split; [|intros ->; reflexivity]. unfold QueryEscape. intros E.
  apply (f_equal list_ascii_of_string) in E. rewrite !list_ascii_of_string_of_list_ascii in E.
  apply escape_bytes_inj in E.
  rewrite <- (string_of_list_ascii_of_string a), <- (string_of_list_ascii_of_string b), E.
  reflexivity.
Qed.

(** ** [strings.Trim(s, " []")], as [response] uses it *)

(** Trimming twice is trimming once, and a body is left as it is exactly
    when it is empty or neither starts nor ends with a space, ['['] or
    [']']. *)
Theorem Trim_idempotent_fixed (s : bytes) :
  Trim (Trim s) = Trim s /\
  (Trim s = s <->
   match s with [] => True | c :: _ => in_cutset c = false /\ in_cutset (last s c) = false end).
Proof.
  split; [apply Trim_fixed, Trim_shape|]. split; [|apply Trim_fixed].
  intros E. pose proof (Trim_shape s) as H. rewrite E in H. exact H.
Qed.

(** A body made only of spaces and brackets (such as [[]], an empty list of
    results) trims to nothing, which is not JSON: [response] leaves the
    heap, the decode target included, as it was. *)
Theorem response_cutset_only_body_ignored {S} (rp : ResponseParser S)
    (newreq : string -> option goerror) (d : Duration) (status : Z) (data : bytes)
    (url : string) (obj : ref) (h : Heap S) :
  forallb in_cutset data = true ->
  response (mkNet newreq (fun _ => Some (d, DoResponse status (ReadOk data)))) rp url obj h
    = Some (match newreq url with Some _ => 0 | None => d end, h).
Proof.
  intros H. unfold response; cbn [net_NewRequest net_Do].
  destruct (newreq url); [reflexivity|].
  rewrite (Trim_all_cutset data H). reflexivity.
Qed.

Lemma response_cutset_only_body_ignored_witness :
  forallb in_cutset ["["%char; "]"%char] = true /\
  response (mkNet (fun _ => None) (fun _ => Some (Second, DoResponse 200 (ReadOk ["["%char; "]"%char]))))
           fresh_parser "http://fake/geocode?q=Paris"%string 0%nat heap0
    = Some (Second, heap0).
Proof.
  assert (H : forallb in_cutset ["["%char; "]"%char] = true) by reflexivity.
  split; [exact H|].
  exact (response_cutset_only_body_ignored fresh_parser (fun _ => None) Second 200 _
           "http://fake/geocode?q=Paris"%string 0%nat heap0 H).
Defined.

(** ** [anyError] on floats *)

(** [anyError] reports [NoResultError] for a Location exactly when each
    coordinate is [+0] or [-0] (Go's [==] on floats): a Location with a
    NaN coordinate is never a missing result. *)
Theorem anyError_Location_float_zero (l : Location) :
  anyError (AnyLocation l) = Some NoResultError <->
  (Lat l = 0%float \/ Lat l = (-0)%float) /\ (Lng l = 0%float \/ Lng l = (-0)%float).
Proof.
  rewrite <- !FloatZero.eqb_zero. unfold anyError.
  destruct (Lat l =? 0)%float, (Lng l =? 0)%float; cbn; intuition congruence.
Qed.
